(** * The cluster store of phy ([phy/cluster/manual/store.py])

    A shallow embedding of the four classes of the module: [MemoryStore],
    [DiskStore], [Store] and [ClusterStore] (with the [StoreItem] base
    class), followed by the properties of the store proved on it.

    Python dictionaries are finite maps ([gmap]); an exception is a value
    of [exn]; a method that mutates its object and may raise is a function
    in the monad [M], which keeps the state reached when the exception is
    raised. *)

From stdpp Require Import gmap strings list sorting.

Local Open Scope string_scope.
Local Open Scope list_scope.

(** ** Python values, exceptions and results *)

(** The objects stored in the cluster store.  An array is the list of its
    rows (the items along its first axis); [VInt] and [VStr] stand for
    the objects that are neither [None] nor an array. *)
#[warnings="-register-all"]
Inductive value : Type :=
  | VNone
  | VInt (z : Z)
  | VStr (s : string)
  | VArray (rows : list value).

(** A keyword dictionary such as [**data], or the record of a cluster. *)
Abbreviation dict := (gmap string value).

(** The exceptions raised by the module. *)
Inductive exn : Type :=
  | AssertionError
  | RuntimeError
  | ValueError
  | KeyError
  | AttributeError
  | TypeError
  | IndexError
  | NotImplementedError.

Inductive res (A : Type) : Type :=
  | Ok (a : A)
  | Raise (e : exn).
Arguments Ok {A} a.
Arguments Raise {A} e.

Global Instance res_ret : MRet res := λ A a, Ok a.
Global Instance res_bind : MBind res := λ A B f m,
  match m with
  | Ok a => f a
  | Raise e => Raise e
  end.

(** A method of an object of state [S]: the result or the exception, and
    the state the object is left in. *)
Definition M (S A : Type) : Type := S → res A * S.

Global Instance M_ret {S} : MRet (M S) := λ A a s, (Ok a, s).
Global Instance M_bind {S} : MBind (M S) := λ A B f m s,
  match m s with
  | (Ok a, s') => f a s'
  | (Raise e, s') => (Raise e, s')
  end.

Definition get {S} : M S S := λ s, (Ok s, s).
Definition modify {S} (f : S → S) : M S unit := λ s, (Ok tt, f s).
Definition lift {S A} (r : res A) : M S A := λ s, (r, s).

(** [for x in l: body(x)] *)
Fixpoint for_each {S A} (l : list A) (body : A → M S unit) : M S unit :=
  match l with
  | [] => mret tt
  | x :: l' => body x ;; for_each l' body
  end.

(** The [keys] argument of the [load] methods: [None], a string, a list,
    a tuple, or an object of another type. *)
Inductive keys : Type :=
  | KNone
  | KStr (key : string)
  | KList (ks : list string)
  | KTuple (ks : list string)
  | KOther.

(** What a [load] method returns: one value, or a dictionary. *)
Inductive loaded : Type :=
  | LVal (v : value)
  | LDict (d : dict).

(** [sorted(...)] on cluster ids. *)
Definition sorted (l : list Z) : list Z := merge_sort Z.le l.

(** [d.keys()] *)
Definition dict_keys {K} `{Countable K} {A} (d : gmap K A) : list K :=
  (map_to_list d).*1.

(** [{key: f(key) for key in ks}]: each key is inserted in turn, a later
    occurrence overwrites an earlier one. *)
Definition dict_comp (f : string → value) (ks : list string) : dict :=
  foldl (λ out key, <[key := f key]> out) ∅ ks.

(** [d.get(key, None)] *)
Definition dict_get (d : dict) (key : string) : value :=
  default VNone (d !! key).

(** [d1.update(d2)]: the entries of [d2] replace those of [d1]. *)
Definition dict_update (d1 d2 : dict) : dict := d2 ∪ d1.

(** ** MemoryStore *)

Module MemoryStore.

Record t : Type := { _ds : gmap Z dict }.

Definition init : t := {| _ds := ∅ |}.

(** [self._ds.get(cluster, {})] *)
Definition record (self : t) (cluster : Z) : dict :=
  default ∅ (_ds self !! cluster).

Definition store (self : t) (cluster : Z) (data : dict) : t :=
  let ds :=
    if decide (cluster ∈ dom (_ds self)) then _ds self
    else <[cluster := ∅]> (_ds self) in
  {| _ds := <[cluster := dict_update (default ∅ (ds !! cluster)) data]> ds |}.

Definition load (self : t) (cluster : Z) (keys : keys) : res loaded :=
  match keys with
  | KNone => Ok (LDict (record self cluster))
  | KStr key => Ok (LVal (dict_get (record self cluster) key))
  | KList ks | KTuple ks =>
      Ok (LDict (dict_comp (λ key, dict_get (record self cluster) key) ks))
  | KOther => Raise AssertionError
  end.

Definition clusters (self : t) : list Z := sorted (dict_keys (_ds self)).

Definition delete (self : t) (clusters : list Z) : t :=
  {| _ds := foldl (λ ds cluster,
                   if decide (cluster ∈ dom ds) then base.delete cluster ds
                   else ds)
                  (_ds self) clusters |}.

Definition clear (self : t) : t := delete self (clusters self).

End MemoryStore.

(** ** DiskStore *)

Module DiskStore.

(** Modelled from the spec: the HDF5 backend ([open_h5], [load_h5],
    [save_h5]) is not part of this module.  It is the keyed container
    of the specification: one container per cluster id, found at a
    path derived from the id, holding the values written under each
    key; [_files] is the content of the directory (a directory that
    does not exist holds no container).  Backend I/O failures are
    outside the model. *)
Record t : Type := { _directory : string; _files : gmap Z dict }.

Definition init (directory : string) (files : gmap Z dict) : t :=
  {| _directory := directory; _files := files |}.

Definition _cluster_file_exists (self : t) (cluster : Z) : bool :=
  bool_decide (cluster ∈ dom (_files self)).

(** [_cluster_file(cluster, mode)]: the content of the container; mode
    ['a'] opens an empty container when the file is absent. *)
Definition _cluster_file (self : t) (cluster : Z) : dict :=
  default ∅ (_files self !! cluster).

(** [_get(f, key)]: the stored value, [None] when the path is absent. *)
Definition _get (f : dict) (key : string) : value :=
  match f !! key with
  | Some v => v
  | None => VNone
  end.

(** [_set(f, key, value)] *)
Definition _set (f : dict) (key : string) (v : value) : dict :=
  <[key := v]> f.

Definition store (self : t) (cluster : Z) (data : dict) : t :=
  let f := _cluster_file self cluster in
  let f' := foldl (λ f kv, _set f kv.1 kv.2) f (map_to_list data) in
  {| _directory := _directory self;
     _files := <[cluster := f']> (_files self) |}.

Definition load (self : t) (cluster : Z) (keys : keys) : res loaded :=
  if negb (_cluster_file_exists self cluster) then
    match keys with
    | KNone => Ok (LDict ∅)
    | KStr _ => Ok (LVal VNone)
    | KList ks => Ok (LDict (dict_comp (λ _, VNone) ks))
    | _ => Raise ValueError
    end
  else
    let f := _cluster_file self cluster in
    match keys with
    | KStr key => Ok (LVal (_get f key))
    | KNone => Ok (LDict (dict_comp (_get f) (dict_keys f)))
    | KList ks | KTuple ks => Ok (LDict (dict_comp (_get f) ks))
    | KOther => Raise AssertionError
    end.

Definition clusters (self : t) : list Z := sorted (dict_keys (_files self)).

Definition delete (self : t) (clusters : list Z) : t :=
  {| _directory := _directory self;
     _files := foldl (λ fs cluster,
                      if decide (cluster ∈ dom fs)
                      then base.delete cluster fs else fs)
                     (_files self) clusters |}.

Definition clear (self : t) : t := delete self (clusters self).

End DiskStore.

(** ** Store *)

(** Modelled from the spec: [_concatenate_dicts] of [phy.utils._misc] is
    not part of this module.  It merges its arguments from left to right,
    so that on a key collision the value of the later dictionary wins. *)
Definition _concatenate_dicts (dicts : list dict) : dict :=
  foldl dict_update ∅ dicts.

Module Store.

Record t : Type := {
  _memory_store : MemoryStore.t;
  _disk_store : option DiskStore.t;
  (* Where the info are stored: a {'field' => ('memory' or 'disk')} dict. *)
  _dispatch : gmap string string
}.

(** [store_path] is [None] or a directory, whose content is [files]. *)
Definition init (store_path : option string) (files : gmap Z dict) : t :=
  {| _memory_store := MemoryStore.init;
     _disk_store := (λ directory, DiskStore.init directory files) <$> store_path;
     _dispatch := ∅ |}.

Definition _check_location (location : string) : res unit :=
  if decide (location ∈ ["memory"; "disk"]) then Ok tt
  else Raise ValueError.

Definition register_field (name location : string) : M t unit :=
  lift (_check_location location) ;;
  modify (λ self,
    {| _memory_store := _memory_store self;
       _disk_store := _disk_store self;
       _dispatch := <[name := location]> (_dispatch self) |}).

(** [keys] is [None] or a list of field names. *)
Definition _filter (self : t) (keys : option (list string))
    (location : string) : option (list string) :=
  match keys with
  | None => None
  | Some ks =>
      Some (filter (λ key, _dispatch self !! key = Some location) ks)
  end.

(** [{k: data[k] for k in ks}], for [ks] among the keys of [data]. *)
Definition subdict (data : dict) (ks : option (list string)) : dict :=
  foldl (λ out k,
         match data !! k with
         | Some v => <[k := v]> out
         | None => out
         end) ∅ (default [] ks).

Definition clusters (self : t) : res (list Z) :=
  let clusters_memory := MemoryStore.clusters (_memory_store self) in
  match _disk_store self with
  | None => Ok clusters_memory
  | Some disk_store =>
      let clusters_disk := DiskStore.clusters disk_store in
      (* Both stores should have the same clusters at all times. *)
      if decide (clusters_memory ≠ clusters_disk) then Raise RuntimeError
      else Ok clusters_memory
  end.

Definition store (cluster : Z) (location : option string) (data : dict)
    : M t unit :=
  (* If the location is specified, register the fields there. *)
  match location with
  | Some loc =>
      if decide (loc ∈ ["memory"; "disk"])
      then for_each (dict_keys data) (λ key, register_field key loc)
      else lift (_check_location loc)
  | None => mret tt
  end ;;
  self ← get ;
  (* Store data in memory. *)
  let data_memory :=
    subdict data (_filter self (Some (dict_keys data)) "memory") in
  let memory_store := MemoryStore.store (_memory_store self) cluster data_memory in
  (* Store data on disk. *)
  let disk_store :=
    match _disk_store self with
    | Some disk_store =>
        let data_disk :=
          subdict data (_filter self (Some (dict_keys data)) "disk") in
        Some (DiskStore.store disk_store cluster data_disk)
    | None => None
    end in
  modify (λ _,
    {| _memory_store := memory_store;
       _disk_store := disk_store;
       _dispatch := _dispatch self |}).

(** The [keys] object handed to a tier by the list and [None] forms. *)
Definition keys_of (ks : option (list string)) : keys :=
  match ks with
  | None => KNone
  | Some l => KList l
  end.

(** A dictionary argument of [_concatenate_dicts]. *)
Definition as_dict (l : loaded) : res dict :=
  match l with
  | LDict d => Ok d
  | LVal _ => Raise TypeError
  end.

(** The branch of [load] for [keys] equal to [None] or a list. *)
Definition load_all (self : t) (cluster : Z) (ks : option (list string))
    : res loaded :=
  data_memory ← MemoryStore.load (_memory_store self) cluster
                  (keys_of (_filter self ks "memory")) ;
  data_disk ←
    match _disk_store self with
    | Some disk_store =>
        DiskStore.load disk_store cluster (keys_of (_filter self ks "disk"))
    | None => Ok (LDict ∅)
    end ;
  d1 ← as_dict data_memory ;
  d2 ← as_dict data_disk ;
  Ok (LDict (_concatenate_dicts [d1; d2])).

Definition load (self : t) (cluster : Z) (keys : keys) : res loaded :=
  match keys with
  | KStr key =>
      match _dispatch self !! key with
      | None => Raise KeyError
      | Some location =>
          if decide (location = "memory") then
            MemoryStore.load (_memory_store self) cluster keys
          else if decide (location = "disk") then
            match _disk_store self with
            | Some disk_store => DiskStore.load disk_store cluster keys
            | None => Raise AttributeError
            end
          else Ok (LVal VNone)
      end
  | KNone => load_all self cluster None
  | KList ks => load_all self cluster (Some ks)
  | _ => Raise ValueError
  end.

Definition clear (self : t) : t :=
  {| _memory_store := MemoryStore.clear (_memory_store self);
     _disk_store := DiskStore.clear <$> _disk_store self;
     _dispatch := _dispatch self |}.

Definition delete (self : t) (clusters : list Z) : t :=
  {| _memory_store := MemoryStore.delete (_memory_store self) clusters;
     _disk_store := (λ d, DiskStore.delete d clusters) <$> _disk_store self;
     _dispatch := _dispatch self |}.

End Store.

(** ** numpy and array helpers *)

(** [np.concatenate(arrays)] along the first axis; numpy refuses an empty
    sequence of arrays.  The shapes of the rows are not modelled. *)
Definition np_concatenate {A} (arrays : list (list A)) : res (list A) :=
  match arrays with
  | [] => Raise ValueError
  | _ => Ok (concat arrays)
  end.

(** The rows of an object handed to [np.concatenate]: [None] and the
    other objects without a first axis are refused. *)
Definition as_array (l : loaded) : res (list value) :=
  match l with
  | LVal (VArray rows) => Ok rows
  | _ => Raise ValueError
  end.

(** [np.all(np.in1d(a, b))] *)
Definition np_all_in1d (a b : list Z) : bool :=
  forallb (λ x, bool_decide (x ∈ b)) a.

(** Modelled from the spec: [_index_of] of [phy.utils.array] is not part
    of this module.  It gives, for each requested index, its position in
    the lookup sequence; there is no position for an index that the
    lookup sequence lacks. *)
Definition _index_of (arr lookup : list Z) : option (list nat) :=
  mapM (λ x, fst <$> list_find (λ y, y = x) lookup) arr.

(** [arrays[idx, ...]] *)
Definition take_rows (arrays : list value) (idx : list nat) : res (list value) :=
  mapM (M:=res) (λ i, match arrays !! i with
             | Some row => Ok row
             | None => Raise IndexError
             end) idx.

(** ** StoreItem *)

(** Modelled from the spec: the clustering change [up] handed to [update],
    [merge] and [assign] is built outside this module.  It has a
    description, the deleted and the added cluster ids, and the spikes of
    each added cluster.  [deleted] is a list, as [MemoryStore.delete]
    asserts of its argument. *)
Record UpdateInfo : Type := {
  description : string;
  deleted : list Z;
  added : list Z;
  new_spikes_per_cluster : gmap Z (list Z)
}.

Module StoreItem.

(** An instance of [StoreItem] or of a subclass.  Its [store] attribute
    is the [Store] of the [ClusterStore] it is registered in, so its
    methods act on the state of that [Store]. *)
Record t : Type := {
  fields : option (list (string * string));
  name : string;
  store_from_model : Z → list Z → M Store.t unit;
  assign : UpdateInfo → M Store.t unit;
  merge : UpdateInfo → M Store.t unit
}.

(** The methods of the base class; [self.store_from_model] and
    [self.assign] are resolved on the instance. *)
Definition base_store_from_model (cluster : Z) (spikes : list Z)
    : M Store.t unit :=
  mret tt.

Definition base_assign (self_store_from_model : Z → list Z → M Store.t unit)
    (up : UpdateInfo) : M Store.t unit :=
  for_each (added up) (λ cluster,
    match new_spikes_per_cluster up !! cluster with
    | Some spikes => self_store_from_model cluster spikes
    | None => lift (Raise KeyError)
    end).

Definition base_merge (self_assign : UpdateInfo → M Store.t unit)
    (up : UpdateInfo) : M Store.t unit :=
  self_assign up.

(** The base class itself. *)
Definition base : t :=
  {| fields := None;
     name := "item";
     store_from_model := base_store_from_model;
     assign := base_assign base_store_from_model;
     merge := base_merge (base_assign base_store_from_model) |}.

(** A subclass that sets [fields] and [name] and overrides
    [store_from_model] only. *)
Definition subclass (fs : list (string * string)) (nm : string)
    (sfm : Z → list Z → M Store.t unit) : t :=
  {| fields := Some fs;
     name := nm;
     store_from_model := sfm;
     assign := base_assign sfm;
     merge := base_merge (base_assign sfm) |}.

End StoreItem.

(** ** ClusterStore *)

Module ClusterStore.

(** [_model] is the [name] attribute of the model, when it has one.
    [_object_attrs] are the attributes that an instance has from
    [object] and from the class machinery ([__class__], [__dict__],
    [__doc__], ..., and [__eq__], [__dir__], ... under Python 3): the
    module does not define them, they depend on the interpreter that
    runs it.  [_accessors] are the attributes installed by
    [register_item]. *)
Record t : Type := {
  _model : option string;
  _spikes_per_cluster : gmap Z (list Z);
  _store : Store.t;
  _items : list StoreItem.t;
  _object_attrs : list string;
  _accessors : list string
}.

(** [object_attrs] are the attributes of the new instance on which
    [__init__] runs. *)
Definition init (object_attrs : list string) (model : option string)
    (path : option string) (files : gmap Z dict) : t :=
  {| _model := model;
     _spikes_per_cluster := ∅;
     _store := Store.init path files;
     _items := [];
     _object_attrs := object_attrs;
     _accessors := [] |}.

Definition spikes_per_cluster (self : t) : gmap Z (list Z) :=
  _spikes_per_cluster self.

(** The cluster store whose store has reached the state [store]. *)
Definition with_store (self : t) (store : Store.t) : t :=
  {| _model := _model self;
     _spikes_per_cluster := _spikes_per_cluster self;
     _store := store;
     _items := _items self;
     _object_attrs := _object_attrs self;
     _accessors := _accessors self |}.

(** A method of [self._store] run on the store of the cluster store. *)
Definition on_store {A} (m : M Store.t A) : M t A := λ self,
  let '(r, store) := m (_store self) in (r, with_store self store).

(** The attributes that the module defines: those set by [__init__] and
    the names bound in the body of the class. *)
Definition class_attrs : list string :=
  ["_model"; "_spikes_per_cluster"; "_store"; "_items";
   "__init__"; "spikes_per_cluster"; "register_item"; "load"; "update";
   "merge"; "assign"; "generate"].

(** [hasattr(self, name)]: an attribute that the module defines, one
    that the instance has from the interpreter, or one installed by
    [register_item]. *)
Definition hasattr (self : t) (name : string) : bool :=
  bool_decide (name ∈ class_attrs ++ _object_attrs self ++ _accessors self).

(** [setattr(self, name, load)] *)
Definition setattr (self : t) (name : string) : t :=
  {| _model := _model self;
     _spikes_per_cluster := _spikes_per_cluster self;
     _store := _store self;
     _items := _items self;
     _object_attrs := _object_attrs self;
     _accessors := name :: _accessors self |}.

(** The method [self.<name>(cluster)] created by [register_item]. *)
Definition accessor (self : t) (name : string) (cluster : Z) : res loaded :=
  if bool_decide (name ∈ _accessors self)
  then Store.load (_store self) cluster (KStr name)
  else Raise AttributeError.

Definition register_item (item : StoreItem.t) : M t unit :=
  match StoreItem.fields item with
  | None => lift (Raise AssertionError)
  | Some fs =>
      for_each fs (λ '(name, location),
        (if decide (location ∈ ["memory"; "disk"])
         then on_store (Store.register_field name location)
         else lift (Raise ValueError)) ;;
        self ← get ;
        if hasattr self name then lift (Raise AssertionError)
        else modify (λ self, setattr self name)) ;;
      modify (λ self,
        {| _model := _model self;
           _spikes_per_cluster := _spikes_per_cluster self;
           _store := _store self;
           _items := _items self ++ [item];
           _object_attrs := _object_attrs self;
           _accessors := _accessors self |})
  end.

(** [arrays] of [load]: the concatenation of the arrays of all clusters. *)
Definition load_arrays (self : t) (name : string) (clusters : list Z)
    : res (list value) :=
  loaded ← mapM (M:=res) (λ cluster, Store.load (_store self) cluster (KStr name))
                clusters ;
  arrays ← mapM (M:=res) as_array loaded ;
  np_concatenate arrays.

(** [spike_clusters] of [load]: the concatenation of the spike indices
    of all clusters. *)
Definition load_spike_clusters (self : t) (clusters : list Z)
    : res (list Z) :=
  spikes ← mapM (M:=res) (λ cluster,
                 match _spikes_per_cluster self !! cluster with
                 | Some spikes => Ok spikes
                 | None => Raise KeyError
                 end) clusters ;
  np_concatenate spikes.

(** [clusters] and [spikes] are lists, so [_is_array_like(clusters)]
    holds. *)
Definition load (self : t) (name : string) (clusters spikes : list Z)
    : res value :=
  store_clusters ← Store.clusters (_store self) ;
  if negb (np_all_in1d clusters store_clusters) then Raise AssertionError
  else
    arrays ← load_arrays self name clusters ;
    spike_clusters ← load_spike_clusters self clusters ;
    if negb (np_all_in1d spikes spike_clusters) then Raise AssertionError
    else
      match _index_of spikes spike_clusters with
      | Some idx => rows ← take_rows arrays idx ; Ok (VArray rows)
      | None => Raise IndexError
      end.

Definition merge (up : UpdateInfo) : M t unit :=
  self ← get ;
  for_each (_items self) (λ item, on_store (StoreItem.merge item up)).

Definition assign (up : UpdateInfo) : M t unit :=
  self ← get ;
  for_each (_items self) (λ item, on_store (StoreItem.assign item up)).

Definition update (up : UpdateInfo) : M t unit :=
  (* Delete the deleted clusters from the store. *)
  on_store (modify (λ store, Store.delete store (deleted up))) ;;
  if decide (description up = "merge") then merge up
  else if decide (description up = "assign") then assign up
  else lift (Raise NotImplementedError).

(** The calls of [info], which write to the log only, are left out. *)
Definition generate (spikes_per_cluster : gmap Z (list Z)) : M t unit :=
  let clusters := sorted (dict_keys spikes_per_cluster) in
  modify (λ self,
    {| _model := _model self;
       _spikes_per_cluster := spikes_per_cluster;
       _store := _store self;
       _items := _items self;
       _object_attrs := _object_attrs self;
       _accessors := _accessors self |}) ;;
  self ← get ;
  for_each (_items self) (λ item,
    for_each clusters (λ cluster,
      match spikes_per_cluster !! cluster with
      | Some spikes => on_store (StoreItem.store_from_model item cluster spikes)
      | None => lift (Raise KeyError)
      end)).

End ClusterStore.

(** * Notions used in the properties *)

(** The part of [data] that [store] forwards to the tier [location]. *)
Definition routed (self : Store.t) (data : dict) (location : string) : dict :=
  Store.subdict data (Store._filter self (Some (dict_keys data)) location).

(** What [DiskStore.load] returns for [None] or a list of keys. *)
Definition disk_dict (disk : DiskStore.t) (cluster : Z)
    (oks : option (list string)) : dict :=
  match DiskStore._files disk !! cluster, oks with
  | None, None => ∅
  | None, Some ks => dict_comp (λ _, VNone) ks
  | Some f, None => f
  | Some f, Some ks => dict_comp (DiskStore._get f) ks
  end.

(** What [MemoryStore.load] returns for [None] or a list of keys. *)
Definition memory_dict (mem : MemoryStore.t) (cluster : Z)
    (oks : option (list string)) : dict :=
  match oks with
  | None => MemoryStore.record mem cluster
  | Some ks => dict_comp (dict_get (MemoryStore.record mem cluster)) ks
  end.

(** The set of ids of a list of clusters. *)
Definition ids (l : list Z) : gset Z := list_to_set l.

(** A field is routed to a tier of the store: it is registered in memory,
    or it is registered on disk and the store has a disk store. *)
Definition has_tier (self : Store.t) (key : string) : bool :=
  match Store._dispatch self !! key with
  | Some location =>
      if decide (location = "memory") then true
      else if decide (location = "disk")
           then bool_decide (is_Some (Store._disk_store self))
           else false
  | None => false
  end.

(** What the specification says of a [load] method on a cluster it does
    not hold: the empty dictionary for [None], [None] for one key, a
    dictionary sending each key to [None] for a list of keys. *)
Definition loads_nothing (load : Z → keys → res loaded) (cluster : Z) : Prop :=
  load cluster KNone = Ok (LDict ∅)
  ∧ (∀ key : string, load cluster (KStr key) = Ok (LVal VNone))
  ∧ (∀ ks : list string,
       ∃ out : dict,
         load cluster (KList ks) = Ok (LDict out)
         ∧ ∀ key, key ∈ ks → out !! key = Some VNone).

(** Every field of [data] is registered, in memory or on disk. *)
Definition registered (self : Store.t) (data : dict) : Prop :=
  ∀ key, is_Some (data !! key) →
         Store._dispatch self !! key = Some "memory"
         ∨ Store._dispatch self !! key = Some "disk".

(** [store(cluster, **data)] followed by [load(cluster)] returns a
    dictionary that has every field of [data] with its value. *)
Definition round_trip (self : Store.t) (cluster : Z) (data : dict) : Prop :=
  ∃ (self' : Store.t) (out : dict),
    Store.store cluster None data self = (Ok tt, self')
    ∧ Store.load self' cluster KNone = Ok (LDict out)
    ∧ ∀ key v, data !! key = Some v → out !! key = Some v.

(** A subclass of [StoreItem] whose [store_from_model] stores, under each
    of its fields, the array of the values of the spikes of the cluster,
    in the order of the spikes. *)
Definition per_spike_item (fs : list (string * string)) (nm : string)
    (value_for : string → Z → value) : StoreItem.t :=
  StoreItem.subclass fs nm (λ cluster spikes,
    Store.store cluster None
      (dict_comp (λ field, VArray (value_for field <$> spikes)) fs.*1)).

(** The concatenations of [load] as the specification words them: across
    the ids in ascending id order. *)
Definition load_arrays_ascending (self : ClusterStore.t) (name : string)
    (ids : list Z) : res (list value) :=
  ClusterStore.load_arrays self name (sorted ids).

Definition load_spike_clusters_ascending (self : ClusterStore.t)
    (ids : list Z) : res (list Z) :=
  ClusterStore.load_spike_clusters self (sorted ids).

(** The last three lines of [load]: every requested spike is among
    [spike_clusters], and the result is made of the rows of [arrays] at
    the positions that the requested spikes have in [spike_clusters]. *)
Definition rows_of_spikes (arrays : list value)
    (spike_clusters spikes : list Z) : res value :=
  if negb (np_all_in1d spikes spike_clusters) then Raise AssertionError
  else
    match _index_of spikes spike_clusters with
    | Some idx => rows ← take_rows arrays idx ; Ok (VArray rows)
    | None => Raise IndexError
    end.

(** The merge of [load] for [keys=None] as the specification words it:
    each tier contributes the fields that are registered to it. *)
Definition load_registered_subsets (self : Store.t) (cluster : Z) : dict :=
  let data_memory :=
    filter (λ kv, Store._dispatch self !! kv.1 = Some "memory")
           (MemoryStore.record (Store._memory_store self) cluster) in
  let data_disk :=
    match Store._disk_store self with
    | Some disk =>
        filter (λ kv, Store._dispatch self !! kv.1 = Some "disk")
               (DiskStore._cluster_file disk cluster)
    | None => ∅
    end in
  _concatenate_dicts [data_memory; data_disk].

(** What defines a provider of per-spike values: its fields, its name
    and the value it computes for a field and a spike. *)
Record provider : Type := {
  provider_fields : list (string * string);
  provider_name : string;
  provider_value : string → Z → value
}.

Definition item_of (p : provider) : StoreItem.t :=
  per_spike_item (provider_fields p) (provider_name p) (provider_value p).

(** The provider declares the field [name]. *)
Definition declares (p : provider) (name : string) : Prop :=
  name ∈ (provider_fields p).*1.

(** [spikes_per_cluster[cluster]], for a cluster of the dictionary. *)
Definition spikes_of (spc : gmap Z (list Z)) (cluster : Z) : list Z :=
  default [] (spc !! cluster).

(** The state of the store after [store_from_model(cluster, spikes)] of
    the provider. *)
Definition store_provider (spc : gmap Z (list Z)) (p : provider)
    (store : Store.t) (cluster : Z) : Store.t :=
  (StoreItem.store_from_model (item_of p) cluster (spikes_of spc cluster)
     store).2.

(** The state of the store after the two loops of [generate]. *)
Definition generate_store (spc : gmap Z (list Z)) (ps : list provider)
    (clusters : list Z) (store : Store.t) : Store.t :=
  foldl (λ store p, foldl (store_provider spc p) store clusters) store ps.

(** The two tiers hold the same clusters. *)
Definition consistent (store : Store.t) : Prop :=
  ∀ disk, Store._disk_store store = Some disk →
          dom (MemoryStore._ds (Store._memory_store store))
          = dom (DiskStore._files disk).

(** The dictionary that the provider stores for a cluster. *)
Definition provider_data (p : provider) (spikes : list Z) : dict :=
  dict_comp (λ field, VArray (provider_value p field <$> spikes))
            (provider_fields p).*1.

Global Instance declares_dec (p : provider) (name : string) :
  Decision (declares p name).
Proof. unfold declares. apply _. Defined.

(** The states that a store reaches from its construction without a
    path, or on an empty directory, through its public methods; a state
    is the one the method leaves, whether it returned or raised. *)
Inductive reachable : Store.t → Prop :=
  | reachable_init (store_path : option string) :
      reachable (Store.init store_path ∅)
  | reachable_register_field (name location : string) (self : Store.t) :
      reachable self → reachable (Store.register_field name location self).2
  | reachable_store (cluster : Z) (location : option string) (data : dict)
      (self : Store.t) :
      reachable self → reachable (Store.store cluster location data self).2
  | reachable_delete (clusters : list Z) (self : Store.t) :
      reachable self → reachable (Store.delete self clusters)
  | reachable_clear (self : Store.t) :
      reachable self → reachable (Store.clear self).

(** The store whose routing table has become [dispatch]. *)
Definition with_dispatch (self : Store.t) (dispatch : gmap string string)
    : Store.t :=
  {| Store._memory_store := Store._memory_store self;
     Store._disk_store := Store._disk_store self;
     Store._dispatch := dispatch |}.

(** The routing table after [store] has registered the fields of [data]. *)
Definition registered_dispatch (self : Store.t) (location : string)
    (data : dict) : gmap string string :=
  foldl (λ d key, <[key := location]> d) (Store._dispatch self)
        (dict_keys data).

(** The routing table after [register_item] has registered the fields
    [fs], each a pair of a name and a location. *)
Definition fields_dispatch (d : gmap string string)
    (fs : list (string * string)) : gmap string string :=
  foldl (λ d nl, <[nl.1 := nl.2]> d) d fs.

(** The cluster store after the loop of [register_item] over [fs]: the
    fields are registered and their accessors installed. *)
Definition fields_registered (self : ClusterStore.t)
    (fs : list (string * string)) : ClusterStore.t :=
  {| ClusterStore._model := ClusterStore._model self;
     ClusterStore._spikes_per_cluster := ClusterStore._spikes_per_cluster self;
     ClusterStore._store :=
       with_dispatch (ClusterStore._store self)
         (fields_dispatch (Store._dispatch (ClusterStore._store self)) fs);
     ClusterStore._items := ClusterStore._items self;
     ClusterStore._object_attrs := ClusterStore._object_attrs self;
     ClusterStore._accessors := reverse fs.*1 ++ ClusterStore._accessors self |}.

(** The cluster store with one more item. *)
Definition with_item (self : ClusterStore.t) (item : StoreItem.t)
    : ClusterStore.t :=
  {| ClusterStore._model := ClusterStore._model self;
     ClusterStore._spikes_per_cluster := ClusterStore._spikes_per_cluster self;
     ClusterStore._store := ClusterStore._store self;
     ClusterStore._items := ClusterStore._items self ++ [item];
     ClusterStore._object_attrs := ClusterStore._object_attrs self;
     ClusterStore._accessors := ClusterStore._accessors self |}.

(** The body of the loop of [register_item]. *)
Definition register_one (nl : string * string) : M ClusterStore.t unit :=
  (if decide (nl.2 ∈ ["memory"; "disk"])
   then ClusterStore.on_store (Store.register_field nl.1 nl.2)
   else lift (Raise ValueError)) ;;
  self ← get ;
  if ClusterStore.hasattr self nl.1 then lift (Raise AssertionError)
  else modify (λ self, ClusterStore.setattr self nl.1).

(** What the calls made on the store of a cluster store leave alone:
    the spikes of the clusters, the items and the installed attributes,
    none of which an item or the store holds. *)
Definition same_frame (self self' : ClusterStore.t) : Prop :=
  ClusterStore._spikes_per_cluster self'
  = ClusterStore._spikes_per_cluster self
  ∧ ClusterStore._items self' = ClusterStore._items self
  ∧ ClusterStore._accessors self' = ClusterStore._accessors self.

(** The store holds the same for the cluster in both states, and routes
    the fields in the same way. *)
Definition same_cluster (c : Z) (s1 s2 : Store.t) : Prop :=
  Store._dispatch s1 = Store._dispatch s2
  ∧ MemoryStore._ds (Store._memory_store s1) !! c
    = MemoryStore._ds (Store._memory_store s2) !! c
  ∧ option_Forall2
      (λ d1 d2, DiskStore._files d1 !! c = DiskStore._files d2 !! c)
      (Store._disk_store s1) (Store._disk_store s2).

(** * Examples *)

(** The stores of the examples: field ["mean"] is kept in memory and
    field ["waveform"] on disk. *)
Definition example_fields (self : Store.t) : Store.t :=
  (Store.register_field "waveform" "disk"
     (Store.register_field "mean" "memory" self).2).2.

Definition store_without_disk : Store.t :=
  example_fields (Store.init None ∅).

Definition store_with_disk : Store.t :=
  example_fields (Store.init (Some "/store") ∅).

Definition store_inconsistent : Store.t :=
  example_fields (Store.init (Some "/store") {[ 7%Z := ∅ ]}).

Definition example_data : dict :=
  {[ "mean" := VInt 12; "waveform" := VArray [VInt 1; VInt 2] ]}.

(** A store in which field ["mean"], first kept on disk, was registered
    again in memory. *)
Definition store_reregistered : Store.t :=
  (Store.store 5 (Some "memory") {[ "mean" := VInt 4 ]}
     (Store.store 5 (Some "disk") {[ "mean" := VInt 3 ]}
        (Store.init (Some "/store") ∅)).2).2.

(** The same with arrays as values. *)
Definition store_reregistered_arrays : Store.t :=
  (Store.store 5 (Some "memory") {[ "mean" := VArray [VInt 4] ]}
     (Store.store 5 (Some "disk") {[ "mean" := VArray [VInt 3] ]}
        (Store.init (Some "/store") ∅)).2).2.

Definition up_assign : UpdateInfo :=
  {| description := "assign";
     deleted := [1%Z];
     added := [3%Z];
     new_spikes_per_cluster := {[ 3%Z := [10%Z; 11%Z] ]} |}.

Definition up_split : UpdateInfo :=
  {| description := "split";
     deleted := [1%Z];
     added := [3%Z; 4%Z];
     new_spikes_per_cluster := {[ 3%Z := [10%Z]; 4%Z := [11%Z] ]} |}.

(** A change that adds cluster 4 without giving its spikes. *)
Definition up_missing : UpdateInfo :=
  {| description := "merge";
     deleted := [1%Z];
     added := [3%Z; 4%Z];
     new_spikes_per_cluster := {[ 3%Z := [10%Z; 11%Z] ]} |}.

Definition example_provider : provider :=
  {| provider_fields := [("f", "memory"); ("g", "disk")];
     provider_name := "example";
     provider_value := λ field spike, VArray [VStr field; VInt spike] |}.

Definition example_spikes : gmap Z (list Z) :=
  {[ 1%Z := [10%Z; 11%Z]; 2%Z := [12%Z] ]}.

(** The attributes that an instance of a class has under Python 3
    before [__init__] runs. *)
Definition object_attrs : list string :=
  ["__class__"; "__delattr__"; "__dict__"; "__dir__"; "__doc__"; "__eq__";
   "__format__"; "__ge__"; "__getattribute__"; "__gt__"; "__hash__";
   "__init_subclass__"; "__le__"; "__lt__"; "__module__"; "__ne__";
   "__new__"; "__reduce__"; "__reduce_ex__"; "__repr__"; "__setattr__";
   "__sizeof__"; "__str__"; "__subclasshook__"; "__weakref__"].

(** [ClusterStore(path=...)] followed by [register_item]. *)
Definition example_registered : ClusterStore.t :=
  (ClusterStore.register_item (item_of example_provider)
     (ClusterStore.init object_attrs None (Some "/store") ∅)).2.

(** [generate] on that cluster store. *)
Definition example_cluster_store : ClusterStore.t :=
  (ClusterStore.generate example_spikes example_registered).2.




(** * Properties *)

(** Runs the monadic code of the goal. *)
Ltac run_M :=
  unfold mbind, mret, M_bind, M_ret, res_bind, res_ret, get, modify, lift;
  simpl.

(** ** Dictionaries and sorted lists *)

Section helpers.
Implicit Types (d data : dict) (ks : list string) (k key : string).

Lemma dict_comp_snoc f ks k :
  dict_comp f (ks ++ [k]) = <[k := f k]> (dict_comp f ks).
Proof. unfold dict_comp. by rewrite foldl_app. Qed.

Lemma lookup_dict_comp f ks k :
  dict_comp f ks !! k = if decide (k ∈ ks) then Some (f k) else None.
Proof.
  induction ks as [|k' ks IH] using rev_ind.
  - case_decide as Hin; [by apply elem_of_nil in Hin | done].
  - rewrite dict_comp_snoc, lookup_insert, IH.
    destruct (decide (k' = k)) as [->|Hne].
    + rewrite decide_True; [done | apply elem_of_app; right; by left].
    + destruct (decide (k ∈ ks)) as [Hin|Hin].
      * rewrite decide_True; [done | apply elem_of_app; by left].
      * rewrite decide_False; [done |].
        intros [?|Hk]%elem_of_app; [done |].
        by apply list_elem_of_singleton in Hk.
Qed.

Lemma dict_comp_all_None ks k :
  k ∈ ks → dict_comp (λ _, VNone) ks !! k = Some VNone.
Proof. intros Hin. by rewrite lookup_dict_comp, decide_True. Qed.

Lemma elem_of_dict_keys {K} `{Countable K} {A} (m : gmap K A) (i : K) :
  i ∈ dict_keys m ↔ is_Some (m !! i).
Proof.
  unfold dict_keys. rewrite list_elem_of_fmap. split.
  - intros [[i' x] [-> Hin]]. apply elem_of_map_to_list in Hin. by exists x.
  - intros [x Hx]. exists (i, x). split; [done | by apply elem_of_map_to_list].
Qed.

Lemma NoDup_dict_keys {K} `{Countable K} {A} (m : gmap K A) :
  NoDup (dict_keys m).
Proof. apply NoDup_fst_map_to_list. Qed.

(** Reading back every key of a container gives the container. *)
Lemma dict_comp_get_keys d : dict_comp (DiskStore._get d) (dict_keys d) = d.
Proof.
  apply map_eq. intros k. rewrite lookup_dict_comp. unfold DiskStore._get.
  case_decide as Hin.
  - apply elem_of_dict_keys in Hin as [v Hv]. by rewrite Hv.
  - destruct (d !! k) as [v|] eqn:Hk; [|done].
    exfalso. apply Hin, elem_of_dict_keys. by exists v.
Qed.

Lemma sorted_Permutation (l : list Z) : sorted l ≡ₚ l.
Proof. apply merge_sort_Permutation. Qed.

Lemma Sorted_sorted (l : list Z) : Sorted Z.le (sorted l).
Proof. apply (Sorted_merge_sort Z.le). Qed.

Lemma elem_of_sorted (l : list Z) (x : Z) : x ∈ sorted l ↔ x ∈ l.
Proof. by rewrite sorted_Permutation. Qed.

Lemma NoDup_sorted (l : list Z) : NoDup (sorted l) ↔ NoDup l.
Proof. by rewrite sorted_Permutation. Qed.

(** Two lists have the same sorted form exactly when one is a
    rearrangement of the other. *)
Lemma sorted_eq_iff (l1 l2 : list Z) : sorted l1 = sorted l2 ↔ l1 ≡ₚ l2.
Proof.
  split.
  - intros Heq. rewrite <- (sorted_Permutation l1), Heq.
    apply sorted_Permutation.
  - intros Hp. apply (Sorted_unique Z.le); [apply Sorted_sorted.. |].
    by rewrite !sorted_Permutation.
Qed.

(** The sorted key lists of two maps agree exactly when the maps have
    the same keys. *)
Lemma sorted_keys_eq_iff {A B} (m1 : gmap Z A) (m2 : gmap Z B) :
  sorted (dict_keys m1) = sorted (dict_keys m2) ↔ dom m1 = dom m2.
Proof.
  rewrite sorted_eq_iff. split.
  - intros Hp. apply set_eq. intros c.
    rewrite !elem_of_dom, <- !elem_of_dict_keys. by rewrite Hp.
  - intros Hdom. apply NoDup_Permutation; [apply NoDup_dict_keys.. |].
    intros c. rewrite !elem_of_dict_keys, <- !elem_of_dom. by rewrite Hdom.
Qed.

Lemma subdict_snoc data ks k :
  Store.subdict data (Some (ks ++ [k]))
  = match data !! k with
    | Some v => <[k := v]> (Store.subdict data (Some ks))
    | None => Store.subdict data (Some ks)
    end.
Proof. unfold Store.subdict. simpl. by rewrite foldl_app. Qed.

Lemma subdict_lookup data ks k :
  Store.subdict data (Some ks) !! k = if decide (k ∈ ks) then data !! k else None.
Proof.
  induction ks as [|k' ks IH] using rev_ind.
  - case_decide as Hin; [by apply elem_of_nil in Hin | done].
  - rewrite subdict_snoc.
    destruct (decide (k' = k)) as [->|Hne].
    + rewrite decide_True; [|apply elem_of_app; right; by left].
      destruct (data !! k) as [v|] eqn:Hk.
      * by rewrite lookup_insert_eq.
      * rewrite IH. by case_decide.
    + assert (Store.subdict data (Some ks) !! k
              = if decide (k ∈ ks ++ [k']) then data !! k else None) as Hgoal.
      { rewrite IH. destruct (decide (k ∈ ks)) as [Hin|Hin].
        - rewrite decide_True; [done | apply elem_of_app; by left].
        - rewrite decide_False; [done |].
          intros [?|Hk]%elem_of_app; [done |].
          by apply list_elem_of_singleton in Hk. }
      destruct (data !! k'); [by rewrite lookup_insert_ne | done].
Qed.

Lemma concatenate_dicts_pair d1 d2 : _concatenate_dicts [d1; d2] = d2 ∪ d1.
Proof.
  unfold _concatenate_dicts, dict_update. simpl.
  by rewrite (right_id_L ∅ (∪) d1).
Qed.

End helpers.

(** ** The two tiers *)

Section tiers.
Implicit Types (data d : dict) (cluster c : Z) (cs : list Z).

Lemma lookup_dict_update d1 d2 (k : string) :
  dict_update d1 d2 !! k
  = match d2 !! k with
    | Some v => Some v
    | None => d1 !! k
    end.
Proof.
  unfold dict_update. rewrite lookup_union.
  by destruct (d2 !! k), (d1 !! k).
Qed.

(** The loop of [delete], on either tier. *)
Lemma lookup_delete_loop {A} (m : gmap Z A) cs c :
  foldl (λ ds cluster,
         if decide (cluster ∈ dom ds) then base.delete cluster ds else ds)
        m cs !! c
  = if decide (c ∈ cs) then None else m !! c.
Proof.
  induction cs as [|c' cs IH] using rev_ind.
  - rewrite decide_False; [done | apply not_elem_of_nil].
  - rewrite foldl_app. simpl.
    set (m' := foldl _ m cs) in *.
    assert (Hstep : (if decide (c' ∈ dom m') then base.delete c' m' else m') !! c
                    = if decide (c' = c) then None else m' !! c).
    { destruct (decide (c' = c)) as [->|Hne];
        destruct (decide (_ ∈ dom m')) as [Hdom|Hdom]; try done.
      - apply lookup_delete_eq.
      - by apply not_elem_of_dom.
      - by apply lookup_delete_ne. }
    rewrite Hstep, IH. clear Hstep IH.
    destruct (decide (c' = c)) as [->|Hne].
    + rewrite decide_True; [done | apply elem_of_app; right; by left].
    + destruct (decide (c ∈ cs)) as [Hin|Hin].
      * rewrite decide_True; [done | apply elem_of_app; by left].
      * rewrite decide_False; [done |].
        intros [?|Hc]%elem_of_app; [done |].
        by apply list_elem_of_singleton in Hc.
Qed.

(** *** MemoryStore *)

Lemma MemoryStore_store_ds (self : MemoryStore.t) c data :
  MemoryStore._ds (MemoryStore.store self c data)
  = <[c := dict_update (MemoryStore.record self c) data]> (MemoryStore._ds self).
Proof.
  unfold MemoryStore.store, MemoryStore.record. simpl.
  case_decide as Hdom; [done |].
  apply not_elem_of_dom in Hdom.
  by rewrite lookup_insert_eq, insert_insert_eq, Hdom.
Qed.

Lemma MemoryStore_record_store (self : MemoryStore.t) c data c' :
  MemoryStore.record (MemoryStore.store self c data) c'
  = if decide (c = c') then dict_update (MemoryStore.record self c) data
    else MemoryStore.record self c'.
Proof.
  unfold MemoryStore.record at 1. rewrite MemoryStore_store_ds, lookup_insert.
  by case_decide.
Qed.

Lemma MemoryStore_dom_store (self : MemoryStore.t) c data :
  dom (MemoryStore._ds (MemoryStore.store self c data))
  = {[c]} ∪ dom (MemoryStore._ds self).
Proof. by rewrite MemoryStore_store_ds, dom_insert_L. Qed.

Lemma elem_of_MemoryStore_clusters (self : MemoryStore.t) c :
  c ∈ MemoryStore.clusters self ↔ c ∈ dom (MemoryStore._ds self).
Proof.
  unfold MemoryStore.clusters.
  by rewrite elem_of_sorted, elem_of_dict_keys, elem_of_dom.
Qed.

Lemma MemoryStore_delete_lookup (self : MemoryStore.t) cs c :
  MemoryStore._ds (MemoryStore.delete self cs) !! c
  = if decide (c ∈ cs) then None else MemoryStore._ds self !! c.
Proof. apply lookup_delete_loop. Qed.

(** *** DiskStore *)

(** Writing the items of [data] one by one overwrites the container
    with [data]. *)
Lemma set_loop_lookup (l : list (string * value)) (f : dict) (k : string) :
  NoDup l.*1 →
  foldl (λ f kv, DiskStore._set f kv.1 kv.2) f l !! k
  = match (list_to_map l : dict) !! k with
    | Some v => Some v
    | None => f !! k
    end.
Proof.
  induction l as [|[k' v'] l IH] using rev_ind; intros Hnd.
  - simpl. by rewrite lookup_empty.
  - rewrite fmap_app in Hnd. apply NoDup_app in Hnd as (Hl & Hfresh & _).
    rewrite foldl_app. simpl. unfold DiskStore._set at 1.
    rewrite list_to_map_snoc.
    2:{ intros Hin. apply (Hfresh k' Hin). by left. }
    rewrite !lookup_insert. case_decide; [done |]. by apply IH.
Qed.

Lemma DiskStore_store_files (self : DiskStore.t) c data :
  DiskStore._files (DiskStore.store self c data)
  = <[c := dict_update (DiskStore._cluster_file self c) data]>
      (DiskStore._files self).
Proof.
  unfold DiskStore.store. simpl. f_equal.
  apply map_eq. intros k.
  rewrite set_loop_lookup by apply NoDup_fst_map_to_list.
  by rewrite list_to_map_to_list, lookup_dict_update.
Qed.

Lemma DiskStore_dom_store (self : DiskStore.t) c data :
  dom (DiskStore._files (DiskStore.store self c data))
  = {[c]} ∪ dom (DiskStore._files self).
Proof. by rewrite DiskStore_store_files, dom_insert_L. Qed.

Lemma elem_of_DiskStore_clusters (self : DiskStore.t) c :
  c ∈ DiskStore.clusters self ↔ c ∈ dom (DiskStore._files self).
Proof.
  unfold DiskStore.clusters.
  by rewrite elem_of_sorted, elem_of_dict_keys, elem_of_dom.
Qed.

Lemma DiskStore_delete_lookup (self : DiskStore.t) cs c :
  DiskStore._files (DiskStore.delete self cs) !! c
  = if decide (c ∈ cs) then None else DiskStore._files self !! c.
Proof. apply lookup_delete_loop. Qed.

Lemma DiskStore_exists_false (self : DiskStore.t) c :
  DiskStore._files self !! c = None →
  DiskStore._cluster_file_exists self c = false.
Proof.
  intros Hc. unfold DiskStore._cluster_file_exists.
  apply bool_decide_eq_false. by apply not_elem_of_dom.
Qed.

Lemma DiskStore_exists_true (self : DiskStore.t) c f :
  DiskStore._files self !! c = Some f →
  DiskStore._cluster_file_exists self c = true.
Proof.
  intros Hc. unfold DiskStore._cluster_file_exists.
  apply bool_decide_eq_true. apply elem_of_dom. by exists f.
Qed.

End tiers.

(** ** Store *)

Section store.
Implicit Types (self : Store.t) (data d : dict) (cluster c : Z).
Implicit Types (k key location : string) (ks : list string).

Lemma lookup_routed self data location k :
  routed self data location !! k
  = if decide (Store._dispatch self !! k = Some location) then data !! k
    else None.
Proof.
  unfold routed, Store._filter. rewrite subdict_lookup.
  destruct (decide (Store._dispatch self !! k = Some location)) as [Hk|Hk].
  - destruct (data !! k) as [v|] eqn:Hv.
    + rewrite decide_True; [done |].
      apply list_elem_of_filter. split; [done |].
      apply elem_of_dict_keys. by exists v.
    + by case_decide.
  - rewrite decide_False; [done |].
    by intros [? _]%list_elem_of_filter.
Qed.

(** Without a location, [store] never raises: it forwards to each tier
    the fields routed there and leaves the routing table alone. *)
Lemma Store_store_None cluster data self :
  Store.store cluster None data self
  = (Ok tt,
     {| Store._memory_store :=
          MemoryStore.store (Store._memory_store self) cluster
            (routed self data "memory");
        Store._disk_store :=
          (λ disk, DiskStore.store disk cluster (routed self data "disk"))
            <$> Store._disk_store self;
        Store._dispatch := Store._dispatch self |}).
Proof.
  unfold Store.store, routed. run_M.
  by destruct (Store._disk_store self).
Qed.

Lemma Store_load_all self cluster (oks : option (list string)) :
  Store.load self cluster (Store.keys_of oks) = Store.load_all self cluster oks.
Proof. by destruct oks. Qed.

(** [load] with one key of a field kept in memory. *)
Lemma Store_load_memory self cluster key :
  Store._dispatch self !! key = Some "memory" →
  Store.load self cluster (KStr key)
  = Ok (LVal (dict_get (MemoryStore.record (Store._memory_store self) cluster) key)).
Proof. intros Hk. unfold Store.load. by rewrite Hk. Qed.

(** [load] with one key of a field kept on disk. *)
Lemma Store_load_disk self cluster key disk :
  Store._dispatch self !! key = Some "disk" →
  Store._disk_store self = Some disk →
  Store.load self cluster (KStr key)
  = Ok (LVal (DiskStore._get (DiskStore._cluster_file disk cluster) key)).
Proof.
  intros Hk Hd. unfold Store.load. rewrite Hk, Hd. simpl.
  unfold DiskStore.load, DiskStore._cluster_file_exists, DiskStore._cluster_file.
  destruct (DiskStore._files disk !! cluster) as [f|] eqn:Hf.
  - rewrite bool_decide_eq_true_2; [done |]. apply elem_of_dom. by exists f.
  - rewrite bool_decide_eq_false_2; [done |]. by apply not_elem_of_dom.
Qed.

Lemma DiskStore_load_dict (disk : DiskStore.t) cluster oks :
  DiskStore.load disk cluster (Store.keys_of oks)
  = Ok (LDict (disk_dict disk cluster oks)).
Proof.
  unfold DiskStore.load, disk_dict, DiskStore._cluster_file.
  destruct (DiskStore._files disk !! cluster) as [f|] eqn:Hf.
  - rewrite (DiskStore_exists_true _ _ _ Hf). simpl.
    destruct oks; simpl; [done |]. by rewrite dict_comp_get_keys.
  - rewrite (DiskStore_exists_false _ _ Hf). by destruct oks.
Qed.

Lemma MemoryStore_load_dict (mem : MemoryStore.t) cluster oks :
  MemoryStore.load mem cluster (Store.keys_of oks)
  = Ok (LDict (memory_dict mem cluster oks)).
Proof. by destruct oks. Qed.

Lemma Store_load_all_eq self cluster oks :
  Store.load_all self cluster oks
  = Ok (LDict
          (match Store._disk_store self with
           | Some disk => disk_dict disk cluster (Store._filter self oks "disk")
           | None => ∅
           end
           ∪ memory_dict (Store._memory_store self) cluster
               (Store._filter self oks "memory"))).
Proof.
  unfold Store.load_all. rewrite MemoryStore_load_dict.
  destruct (Store._disk_store self) as [disk|].
  - rewrite DiskStore_load_dict. unfold mbind, res_bind, Store.as_dict.
    by rewrite concatenate_dicts_pair.
  - unfold mbind, res_bind, Store.as_dict.
    by rewrite concatenate_dicts_pair.
Qed.

End store.

(** ** The clusters of the store *)

Lemma ids_clusters_eq (mem : MemoryStore.t) (disk : DiskStore.t) :
  ids (MemoryStore.clusters mem) = ids (DiskStore.clusters disk)
  ↔ MemoryStore.clusters mem = DiskStore.clusters disk.
Proof.
  split; [|by intros ->].
  intros Hids. apply sorted_keys_eq_iff, set_eq. intros c.
  rewrite <- elem_of_MemoryStore_clusters, <- elem_of_DiskStore_clusters.
  unfold ids in Hids.
  by rewrite <- (elem_of_list_to_set (C := gset Z)), Hids, elem_of_list_to_set.
Qed.

(** C1: without a disk store, [Store.clusters] is the list of clusters of
    the memory store; with a disk store it raises [RuntimeError] when the
    memory store and the disk store do not hold the same set of cluster
    ids, and otherwise returns the list of that common set. *)
Theorem Store_clusters_consistency (self : Store.t) :
  (Store._disk_store self = None →
   Store.clusters self = Ok (MemoryStore.clusters (Store._memory_store self)))
  ∧ (∀ disk, Store._disk_store self = Some disk →
       ids (MemoryStore.clusters (Store._memory_store self))
         ≠ ids (DiskStore.clusters disk) →
       Store.clusters self = Raise RuntimeError)
  ∧ (∀ disk, Store._disk_store self = Some disk →
       ids (MemoryStore.clusters (Store._memory_store self))
         = ids (DiskStore.clusters disk) →
       Store.clusters self = Ok (MemoryStore.clusters (Store._memory_store self))
       ∧ MemoryStore.clusters (Store._memory_store self)
         = DiskStore.clusters disk).
Proof.
  unfold Store.clusters. split; [|split].
  - by intros ->.
  - intros disk -> Hne. rewrite decide_True; [done |].
    intros Heq. by apply Hne, ids_clusters_eq.
  - intros disk -> Heq%ids_clusters_eq. split; [|done].
    rewrite decide_False; [done |]. by intros [].
Qed.

Lemma Store_clusters_consistency_witness :
  Store.clusters (Store.store 5 None example_data store_without_disk).2
    = Ok [5%Z]
  ∧ Store.clusters (Store.store 5 None example_data store_inconsistent).2
    = Raise RuntimeError
  ∧ Store.clusters (Store.store 5 None example_data store_with_disk).2
    = Ok [5%Z].
Proof.
  split; [|split].
  - exact (proj1 (Store_clusters_consistency
                    (Store.store 5 None example_data store_without_disk).2)
             eq_refl).
  - refine (proj1 (proj2 (Store_clusters_consistency
                            (Store.store 5 None example_data store_inconsistent).2))
              _ eq_refl _).
    vm_compute. discriminate.
  - refine (proj1 (proj2 (proj2 (Store_clusters_consistency
                                   (Store.store 5 None example_data store_with_disk).2))
                     _ eq_refl _)).
    vm_compute. reflexivity.
Defined.

(** ** Storing without a location *)

(** C4: [store(cluster, **data)] without a location does not raise, even
    when some fields of [data] are not registered; an unregistered field
    reaches neither tier; the memory store is handed the fields
    registered in memory, and the disk store, when the store has one,
    those registered on disk. *)
Theorem Store_store_drops_unregistered (self : Store.t) (cluster : Z)
    (data : dict) :
  ∃ self',
    Store.store cluster None data self = (Ok tt, self')
    ∧ Store._dispatch self' = Store._dispatch self
    ∧ Store._memory_store self'
      = MemoryStore.store (Store._memory_store self) cluster
          (routed self data "memory")
    ∧ Store._disk_store self'
      = (λ disk, DiskStore.store disk cluster (routed self data "disk"))
          <$> Store._disk_store self
    ∧ ∀ k : string,
        routed self data "memory" !! k
        = (if decide (Store._dispatch self !! k = Some "memory")
           then data !! k else None)
        ∧ routed self data "disk" !! k
          = (if decide (Store._dispatch self !! k = Some "disk")
             then data !! k else None)
        ∧ (Store._dispatch self !! k = None →
           MemoryStore.record (Store._memory_store self') cluster !! k
           = MemoryStore.record (Store._memory_store self) cluster !! k
           ∧ ∀ disk disk',
               Store._disk_store self = Some disk →
               Store._disk_store self' = Some disk' →
               DiskStore._cluster_file disk' cluster !! k
               = DiskStore._cluster_file disk cluster !! k).
Proof.
  eexists. split; [apply Store_store_None |]. simpl.
  split; [done |]. split; [done |]. split; [done |].
  intros k. split; [apply lookup_routed |]. split; [apply lookup_routed |].
  intros Hk. split.
  - rewrite MemoryStore_record_store, decide_True by done.
    rewrite lookup_dict_update, lookup_routed, Hk. by rewrite decide_False.
  - intros disk disk' -> [= <-].
    unfold DiskStore._cluster_file at 1.
    rewrite DiskStore_store_files, lookup_insert_eq. simpl.
    rewrite lookup_dict_update, lookup_routed, Hk. by rewrite decide_False.
Qed.

Lemma Store_store_drops_unregistered_witness :
  ∃ self',
    Store.store 5 None (<["other" := VInt 1]> example_data) store_with_disk
    = (Ok tt, self')
    ∧ MemoryStore.record (Store._memory_store self') 5 !! "other" = None
    ∧ (∀ disk', Store._disk_store self' = Some disk' →
       DiskStore._cluster_file disk' 5 !! "other" = None).
Proof.
  destruct (Store_store_drops_unregistered store_with_disk 5
              (<["other" := VInt 1]> example_data))
    as (self' & Hstore & _ & _ & _ & Hk).
  exists self'. split; [exact Hstore |].
  destruct (Hk "other") as (_ & _ & Hother).
  destruct (Hother eq_refl) as [Hmem Hdisk].
  split.
  - rewrite Hmem. reflexivity.
  - intros disk' Hd'. rewrite (Hdisk _ disk' eq_refl Hd'). reflexivity.
Defined.

(** C4, as stated, fails for a field registered on disk in a store that
    has no disk store: the field has a routing entry, and [store] hands
    it to no tier. *)
Lemma Store_store_drops_unregistered_counterexample :
  Store._dispatch store_without_disk !! "waveform" = Some "disk"
  ∧ example_data !! "waveform" = Some (VArray [VInt 1; VInt 2])
  ∧ ∃ self',
      Store.store 5 None example_data store_without_disk = (Ok tt, self')
      ∧ Store._disk_store self' = None
      ∧ MemoryStore.record (Store._memory_store self') 5 !! "waveform" = None.
Proof.
  split; [done |]. split; [done |].
  eexists. split; [apply Store_store_None |]. split; [done |].
  vm_compute. reflexivity.
Qed.

(** ** Loading from the two tiers *)

Section tier_parts.
Implicit Types (self : Store.t) (c : Z) (key : string) (ks : list string).

Lemma elem_of_filter_dispatch self location ks key :
  key ∈ filter (λ k, Store._dispatch self !! k = Some location) ks
  ↔ key ∈ ks ∧ Store._dispatch self !! key = Some location.
Proof. rewrite list_elem_of_filter. tauto. Qed.

Lemma lookup_memory_part self c ks key :
  memory_dict (Store._memory_store self) c (Store._filter self (Some ks) "memory")
    !! key
  = if decide (key ∈ ks ∧ Store._dispatch self !! key = Some "memory")
    then Some (dict_get (MemoryStore.record (Store._memory_store self) c) key)
    else None.
Proof.
  cbn [Store._filter memory_dict]. rewrite lookup_dict_comp.
  apply decide_ext, elem_of_filter_dispatch.
Qed.

Lemma lookup_disk_part self (disk : DiskStore.t) c ks key :
  disk_dict disk c (Store._filter self (Some ks) "disk") !! key
  = if decide (key ∈ ks ∧ Store._dispatch self !! key = Some "disk")
    then Some (DiskStore._get (DiskStore._cluster_file disk c) key)
    else None.
Proof.
  cbn [Store._filter]. unfold disk_dict, DiskStore._cluster_file.
  destruct (DiskStore._files disk !! c) as [f|];
    rewrite lookup_dict_comp; cbn [default].
  - apply decide_ext, elem_of_filter_dispatch.
  - unfold DiskStore._get. rewrite lookup_empty.
    apply decide_ext, elem_of_filter_dispatch.
Qed.

Lemma lookup_disk_all (disk : DiskStore.t) c key :
  disk_dict disk c None !! key = DiskStore._cluster_file disk c !! key.
Proof.
  unfold disk_dict, DiskStore._cluster_file.
  by destruct (DiskStore._files disk !! c).
Qed.

End tier_parts.

(** C8: for [keys] equal to [None] or a list, [Store.load] loads a
    dictionary from the memory store and one from the disk store, and
    merges the two; on a key present in both the value of the disk store
    wins; without a disk store the disk part is the empty dictionary.
    For a list, the memory store is asked for the requested keys that
    are registered in memory, and the disk store for those registered
    on disk; for [None], each store gives all that it holds for the
    cluster, whatever the registration of the fields. *)
Theorem Store_load_merges_tiers (self : Store.t) (cluster : Z)
    (oks : option (list string)) :
  ∃ data_memory data_disk out : dict,
    MemoryStore.load (Store._memory_store self) cluster
      (Store.keys_of (Store._filter self oks "memory"))
    = Ok (LDict data_memory)
    ∧ match Store._disk_store self with
      | Some disk =>
          DiskStore.load disk cluster
            (Store.keys_of (Store._filter self oks "disk"))
          = Ok (LDict data_disk)
      | None => data_disk = ∅
      end
    ∧ (∀ k : string,
         data_memory !! k
         = match oks with
           | None =>
               MemoryStore.record (Store._memory_store self) cluster !! k
           | Some ks =>
               if decide (k ∈ ks ∧ Store._dispatch self !! k = Some "memory")
               then Some (dict_get (MemoryStore.record
                                      (Store._memory_store self) cluster) k)
               else None
           end)
    ∧ (∀ k : string,
         data_disk !! k
         = match Store._disk_store self, oks with
           | None, _ => None
           | Some disk, None => DiskStore._cluster_file disk cluster !! k
           | Some disk, Some ks =>
               if decide (k ∈ ks ∧ Store._dispatch self !! k = Some "disk")
               then Some (DiskStore._get
                            (DiskStore._cluster_file disk cluster) k)
               else None
           end)
    ∧ Store.load self cluster (Store.keys_of oks) = Ok (LDict out)
    ∧ ∀ k : string,
        out !! k = match data_disk !! k with
                   | Some v => Some v
                   | None => data_memory !! k
                   end.
Proof.
  exists (memory_dict (Store._memory_store self) cluster
            (Store._filter self oks "memory")).
  exists (match Store._disk_store self with
          | Some disk => disk_dict disk cluster (Store._filter self oks "disk")
          | None => ∅
          end).
  eexists. split; [apply MemoryStore_load_dict |]. split; [|split; [|split]].
  - destruct (Store._disk_store self); [apply DiskStore_load_dict | done].
  - intros k. destruct oks as [ks|]; [apply lookup_memory_part | done].
  - intros k. destruct (Store._disk_store self) as [disk|];
      [|apply lookup_empty].
    destruct oks as [ks|]; [apply lookup_disk_part | apply lookup_disk_all].
  - split; [by rewrite Store_load_all, Store_load_all_eq |].
    intros k. apply (lookup_dict_update _ _ k).
Qed.

(** C8, as stated, fails for [keys=None]: the disk store gives the value
    it holds for a field that is registered in memory, and that value
    wins; the merge of the registered subsets would hold the value of
    the memory store. *)
Lemma Store_load_merges_tiers_counterexample :
  Store._dispatch store_reregistered_arrays !! "mean" = Some "memory"
  ∧ (∃ out : dict,
       Store.load store_reregistered_arrays 5 KNone = Ok (LDict out)
       ∧ out !! "mean" = Some (VArray [VInt 3]))
  ∧ load_registered_subsets store_reregistered_arrays 5 !! "mean"
    = Some (VArray [VInt 4]).
Proof.
  split; [reflexivity |]. split; [|reflexivity].
  eexists. split; reflexivity.
Qed.

(** C10: in a store without a disk store, [load] with the single key of a
    field registered on disk calls [load] on the missing disk store and
    raises [AttributeError], whereas the [None] and list forms return
    the part held in memory. *)
Theorem Store_load_scalar_disk_field_without_disk (self : Store.t)
    (cluster : Z) (key : string) :
  Store._disk_store self = None →
  Store._dispatch self !! key = Some "disk" →
  Store.load self cluster (KStr key) = Raise AttributeError
  ∧ Store.load self cluster KNone
    = Ok (LDict (MemoryStore.record (Store._memory_store self) cluster))
  ∧ ∀ ks : list string,
      Store.load self cluster (KList ks)
      = Ok (LDict
              (dict_comp
                 (dict_get (MemoryStore.record (Store._memory_store self) cluster))
                 (filter (λ k, Store._dispatch self !! k = Some "memory") ks))).
Proof.
  intros Hdisk Hkey. split; [|split].
  - unfold Store.load. by rewrite Hkey, Hdisk.
  - unfold Store.load. rewrite Store_load_all_eq, Hdisk.
    simpl. by rewrite (left_id_L ∅ (∪)).
  - intros ks. unfold Store.load. rewrite Store_load_all_eq, Hdisk.
    simpl. by rewrite (left_id_L ∅ (∪)).
Qed.

Lemma Store_load_scalar_disk_field_without_disk_witness :
  let self := (Store.store 5 None example_data store_without_disk).2 in
  Store.load self 5 (KStr "waveform") = Raise AttributeError
  ∧ Store.load self 5 KNone = Ok (LDict {[ "mean" := VInt 12 ]})
  ∧ Store.load self 5 (KList ["mean"; "waveform"])
    = Ok (LDict {[ "mean" := VInt 12 ]}).
Proof.
  intros self.
  destruct (Store_load_scalar_disk_field_without_disk self 5 "waveform"
              eq_refl eq_refl) as (Hscalar & Hnone & Hlist).
  split; [exact Hscalar |]. split.
  - rewrite Hnone. reflexivity.
  - rewrite Hlist. reflexivity.
Defined.

(** ** Loading a missing cluster *)

Lemma lookup_union_dict (d2 d1 : dict) (k : string) :
  (d2 ∪ d1) !! k = match d2 !! k with
                   | Some v => Some v
                   | None => d1 !! k
                   end.
Proof. apply (lookup_dict_update d1 d2 k). Qed.

Lemma dict_get_empty (key : string) : dict_get ∅ key = VNone.
Proof. unfold dict_get. by rewrite lookup_empty. Qed.

Lemma MemoryStore_loads_nothing (mem : MemoryStore.t) (cluster : Z) :
  cluster ∉ MemoryStore.clusters mem →
  loads_nothing (MemoryStore.load mem) cluster.
Proof.
  rewrite elem_of_MemoryStore_clusters, not_elem_of_dom. intros Hc.
  assert (MemoryStore.record mem cluster = ∅) as Hrec.
  { unfold MemoryStore.record. by rewrite Hc. }
  unfold loads_nothing, MemoryStore.load. rewrite Hrec.
  split; [done |]. split.
  - intros key. by rewrite dict_get_empty.
  - intros ks. eexists. split; [done |]. intros key Hin.
    rewrite lookup_dict_comp, decide_True by done. by rewrite dict_get_empty.
Qed.

Lemma DiskStore_loads_nothing (disk : DiskStore.t) (cluster : Z) :
  cluster ∉ DiskStore.clusters disk →
  loads_nothing (DiskStore.load disk) cluster.
Proof.
  rewrite elem_of_DiskStore_clusters, not_elem_of_dom. intros Hc.
  unfold loads_nothing, DiskStore.load.
  rewrite (DiskStore_exists_false _ _ Hc). simpl.
  split; [done |]. split; [done |].
  intros ks. eexists. split; [done |]. apply dict_comp_all_None.
Qed.

(** C7: a cluster held by neither tier is loaded without an exception
    from either tier: [{}] for [None], [None] for one key, a dictionary
    of [None] for a list.  [Store.load] returns [{}] for [None]; for one
    key it returns [None] when the key is routed to a tier of the store;
    for a list it returns the dictionary that sends to [None] the keys
    routed to a tier of the store, the other keys being left out. *)
Theorem Store_load_missing_cluster (self : Store.t) (cluster : Z) :
  cluster ∉ MemoryStore.clusters (Store._memory_store self) →
  (∀ disk, Store._disk_store self = Some disk →
           cluster ∉ DiskStore.clusters disk) →
  loads_nothing (MemoryStore.load (Store._memory_store self)) cluster
  ∧ (∀ disk, Store._disk_store self = Some disk →
             loads_nothing (DiskStore.load disk) cluster)
  ∧ Store.load self cluster KNone = Ok (LDict ∅)
  ∧ (∀ key, has_tier self key = true →
            Store.load self cluster (KStr key) = Ok (LVal VNone))
  ∧ (∀ ks : list string,
       ∃ out : dict,
         Store.load self cluster (KList ks) = Ok (LDict out)
         ∧ ∀ key, key ∈ ks →
                  out !! key = if has_tier self key then Some VNone else None).
Proof.
  intros Hmem Hdisk.
  pose proof (MemoryStore_loads_nothing _ _ Hmem) as Hm.
  assert (∀ disk, Store._disk_store self = Some disk →
                  loads_nothing (DiskStore.load disk) cluster) as Hd.
  { intros disk Hsome. by apply DiskStore_loads_nothing, Hdisk. }
  assert (MemoryStore.record (Store._memory_store self) cluster = ∅) as Hrec.
  { rewrite elem_of_MemoryStore_clusters, not_elem_of_dom in Hmem.
    unfold MemoryStore.record. by rewrite Hmem. }
  assert (∀ disk, Store._disk_store self = Some disk →
                  DiskStore._files disk !! cluster = None) as Hfile.
  { intros disk Hsome. apply not_elem_of_dom.
    rewrite <- elem_of_DiskStore_clusters. by apply Hdisk. }
  split; [done |]. split; [done |]. split; [|split].
  - unfold Store.load. rewrite Store_load_all_eq. simpl. rewrite Hrec.
    destruct (Store._disk_store self) as [disk|] eqn:Hsome.
    + unfold disk_dict. rewrite (Hfile disk eq_refl).
      by rewrite (left_id_L ∅ (∪)).
    + by rewrite (left_id_L ∅ (∪)).
  - intros key. unfold has_tier, Store.load.
    destruct (Store._dispatch self !! key) as [location|]; [|done].
    destruct (decide (location = "memory")) as [->|Hnm].
    { intros _. apply Hm. }
    destruct (decide (location = "disk")) as [->|Hnd]; [|done].
    intros [disk Hsome]%bool_decide_eq_true. rewrite Hsome.
    by apply (Hd disk Hsome).
  - intros ks. eexists. unfold Store.load. rewrite Store_load_all_eq.
    split; [done |]. intros key Hin.
    unfold memory_dict, Store._filter.
    rewrite lookup_union_dict, Hrec, lookup_dict_comp, dict_get_empty.
    unfold has_tier.
    destruct (Store._disk_store self) as [disk|] eqn:Hsome.
    + unfold disk_dict. rewrite (Hfile disk eq_refl). simpl.
      rewrite lookup_dict_comp.
      destruct (Store._dispatch self !! key) as [location|] eqn:Hkey.
      * destruct (decide (location = "memory")) as [->|Hnm].
        { rewrite decide_False.
          2:{ intros [? _]%list_elem_of_filter. congruence. }
          rewrite decide_True; [done |]. by apply list_elem_of_filter. }
        destruct (decide (location = "disk")) as [->|Hnd].
        { by rewrite decide_True by (by apply list_elem_of_filter). }
        rewrite !decide_False; [done |..].
        -- intros [? _]%list_elem_of_filter. congruence.
        -- intros [? _]%list_elem_of_filter. congruence.
      * rewrite !decide_False; [done |..];
          intros [? _]%list_elem_of_filter; congruence.
    + rewrite lookup_empty.
      destruct (Store._dispatch self !! key) as [location|] eqn:Hkey.
      * destruct (decide (location = "memory")) as [->|Hnm].
        { rewrite decide_True; [done |]. by apply list_elem_of_filter. }
        rewrite decide_False.
        2:{ intros [? _]%list_elem_of_filter. congruence. }
        destruct (decide (location = "disk")); [|done].
        rewrite bool_decide_eq_false_2; [done |]. by intros [? [=]].
      * rewrite decide_False; [done |].
        intros [? _]%list_elem_of_filter; congruence.
Qed.

Lemma Store_load_missing_cluster_witness :
  Store.load store_with_disk 1 KNone = Ok (LDict ∅)
  ∧ Store.load store_with_disk 1 (KStr "waveform") = Ok (LVal VNone)
  ∧ Store.load store_with_disk 1 (KStr "mean") = Ok (LVal VNone).
Proof.
  assert (1%Z ∉ MemoryStore.clusters (Store._memory_store store_with_disk))
    as Hmem by apply not_elem_of_nil.
  assert (∀ disk, Store._disk_store store_with_disk = Some disk →
                  1%Z ∉ DiskStore.clusters disk) as Hdisk.
  { intros disk Hsome. vm_compute in Hsome. injection Hsome as <-.
    apply not_elem_of_nil. }
  destruct (Store_load_missing_cluster store_with_disk 1 Hmem Hdisk)
    as (_ & _ & Hnone & Hscalar & _).
  split; [exact Hnone |].
  split; [exact (Hscalar "waveform" eq_refl) | exact (Hscalar "mean" eq_refl)].
Defined.

(** C7, as stated, fails for [Store.load]: in a store that holds no
    cluster, loading one key that is not registered raises [KeyError]. *)
Lemma Store_load_missing_cluster_counterexample :
  MemoryStore.clusters (Store._memory_store store_without_disk) = []
  ∧ Store._disk_store store_without_disk = None
  ∧ Store.load store_without_disk 1 (KStr "other") = Raise KeyError
  ∧ ¬ loads_nothing (Store.load store_without_disk) 1.
Proof.
  split; [done |]. split; [done |]. split; [done |].
  intros (_ & Hscalar & _). specialize (Hscalar "other"). discriminate Hscalar.
Qed.

(** ** Round trip *)

(** C6: [store(cluster, **data)] followed by [load(cluster)] returns a
    dictionary with every field of [data] and its value, when each
    field of [data] is routed to a tier of the store and the disk
    container of the cluster has no value for a field of [data] that is
    registered in memory. *)
Theorem Store_round_trip (self : Store.t) (cluster : Z) (data : dict) :
  (∀ key, is_Some (data !! key) → has_tier self key = true) →
  (∀ key disk, is_Some (data !! key) →
               Store._dispatch self !! key = Some "memory" →
               Store._disk_store self = Some disk →
               DiskStore._cluster_file disk cluster !! key = None) →
  round_trip self cluster data.
Proof.
  intros Htier Hfresh. unfold round_trip.
  eexists. eexists. split; [apply Store_store_None |].
  unfold Store.load. rewrite Store_load_all_eq. split; [done |].
  intros key v Hkv. simpl.
  assert (is_Some (data !! key)) as Hsome by (by exists v).
  specialize (Htier key Hsome). specialize (Hfresh key).
  unfold has_tier in Htier.
  rewrite lookup_union_dict, MemoryStore_record_store, decide_True by done.
  rewrite lookup_dict_update, lookup_routed.
  destruct (Store._dispatch self !! key) as [location|] eqn:Hkey; [|done].
  destruct (decide (location = "memory")) as [->|Hnm].
  - rewrite decide_True, Hkv by done.
    destruct (Store._disk_store self) as [disk|] eqn:Hdisk; simpl.
    + unfold disk_dict. rewrite DiskStore_store_files, lookup_insert_eq.
      rewrite lookup_dict_update, lookup_routed, Hkey.
      rewrite decide_False by congruence.
      by rewrite (Hfresh disk Hsome eq_refl eq_refl).
    + by rewrite lookup_empty.
  - destruct (decide (location = "disk")) as [->|Hnd]; [|done].
    apply bool_decide_eq_true in Htier as [disk Hdisk]. rewrite Hdisk. simpl.
    unfold disk_dict. rewrite DiskStore_store_files, lookup_insert_eq.
    rewrite lookup_dict_update, lookup_routed, Hkey.
    by rewrite decide_True, Hkv by done.
Qed.

Lemma Store_round_trip_witness : round_trip store_with_disk 5 example_data.
Proof.
  apply Store_round_trip.
  - intros key [v Hv]. unfold example_data in Hv.
    apply lookup_insert_Some in Hv as [[<- _]|[_ Hv]]; [done |].
    apply lookup_singleton_Some in Hv as [<- _]. done.
  - intros key disk _ _ Hdisk. vm_compute in Hdisk. injection Hdisk as <-.
    apply lookup_empty.
Defined.

(** C6, as stated, fails in two ways: a field registered on disk is
    dropped by a store that has no disk store, and a value left in the
    disk container hides the value stored for a field registered in
    memory. *)
Lemma Store_round_trip_counterexample :
  (registered store_without_disk example_data
   ∧ ¬ round_trip store_without_disk 5 example_data)
  ∧ (registered store_reregistered {[ "mean" := VInt 7 ]}
     ∧ ¬ round_trip store_reregistered 5 {[ "mean" := VInt 7 ]}).
Proof.
  split; split.
  - intros key [v Hv]. unfold example_data in Hv.
    apply lookup_insert_Some in Hv as [[<- _]|[_ Hv]]; [by left |].
    apply lookup_singleton_Some in Hv as [<- _]. by right.
  - intros (self' & out & Hstore & Hload & Hall).
    rewrite Store_store_None in Hstore. injection Hstore as <-.
    vm_compute in Hload. injection Hload as <-.
    specialize (Hall "waveform" _ eq_refl). vm_compute in Hall.
    discriminate Hall.
  - intros key [v Hv].
    apply lookup_singleton_Some in Hv as [<- _]. by left.
  - intros (self' & out & Hstore & Hload & Hall).
    rewrite Store_store_None in Hstore. injection Hstore as <-.
    vm_compute in Hload. injection Hload as <-.
    specialize (Hall "mean" _ eq_refl). vm_compute in Hall.
    discriminate Hall.
Qed.

(** ** Updating the cluster store *)

Section update.
Implicit Types (self : ClusterStore.t) (up : UpdateInfo) (c : Z).

Lemma on_store_modify (f : Store.t → Store.t) self :
  ClusterStore.on_store (modify f) self
  = (Ok tt, ClusterStore.with_store self (f (ClusterStore._store self))).
Proof. done. Qed.

Lemma Store_delete_memory (store : Store.t) (cs : list Z) :
  Store._memory_store (Store.delete store cs)
  = MemoryStore.delete (Store._memory_store store) cs.
Proof. done. Qed.

Lemma Store_delete_disk (store : Store.t) (cs : list Z) :
  Store._disk_store (Store.delete store cs)
  = (λ disk, DiskStore.delete disk cs) <$> Store._disk_store store.
Proof. done. Qed.

(** A deleted cluster is listed by neither tier. *)
Lemma Store_delete_clusters (store : Store.t) (cs : list Z) c :
  c ∈ cs →
  (c ∉ MemoryStore.clusters (Store._memory_store (Store.delete store cs)))
  ∧ (∀ disk, Store._disk_store (Store.delete store cs) = Some disk →
             c ∉ DiskStore.clusters disk).
Proof.
  intros Hin. split.
  - rewrite elem_of_MemoryStore_clusters, not_elem_of_dom, Store_delete_memory.
    by rewrite MemoryStore_delete_lookup, decide_True.
  - intros disk. rewrite Store_delete_disk.
    destruct (Store._disk_store store) as [disk0|]; [|done].
    intros [= <-].
    rewrite elem_of_DiskStore_clusters, not_elem_of_dom.
    by rewrite DiskStore_delete_lookup, decide_True.
Qed.

(** A cluster that is not deleted is kept as it is by both tiers. *)
Lemma Store_delete_other (store : Store.t) (cs : list Z) c :
  c ∉ cs →
  MemoryStore._ds (Store._memory_store (Store.delete store cs)) !! c
  = MemoryStore._ds (Store._memory_store store) !! c
  ∧ (∀ disk, Store._disk_store store = Some disk →
       ∃ disk', Store._disk_store (Store.delete store cs) = Some disk'
                ∧ DiskStore._files disk' !! c = DiskStore._files disk !! c).
Proof.
  intros Hin. split.
  - by rewrite Store_delete_memory, MemoryStore_delete_lookup, decide_False.
  - intros disk Hdisk. rewrite Store_delete_disk, Hdisk. eexists.
    split; [done |]. by rewrite DiskStore_delete_lookup, decide_False.
Qed.

(** [update] after its first statement. *)
Lemma ClusterStore_update_eq up self :
  ClusterStore.update up self
  = let self1 :=
      ClusterStore.with_store self
        (Store.delete (ClusterStore._store self) (deleted up)) in
    if decide (description up = "merge") then ClusterStore.merge up self1
    else if decide (description up = "assign") then ClusterStore.assign up self1
    else (Raise NotImplementedError, self1).
Proof.
  unfold ClusterStore.update.
  unfold mbind at 1. unfold M_bind. rewrite on_store_modify.
  cbv zeta. by repeat case_decide.
Qed.

End update.

(** C5: [update] first deletes the clusters of [up.deleted] from the
    store, so that neither tier lists them any more, and then runs
    [merge] when the description is ['merge'], [assign] when it is
    ['assign'], and raises [NotImplementedError] for any other
    description. *)
Theorem ClusterStore_update_dispatch (up : UpdateInfo) (self : ClusterStore.t) :
  let self1 :=
    ClusterStore.with_store self
      (Store.delete (ClusterStore._store self) (deleted up)) in
  ClusterStore.update up self
  = (if decide (description up = "merge") then ClusterStore.merge up self1
     else if decide (description up = "assign") then ClusterStore.assign up self1
     else (Raise NotImplementedError, self1))
  ∧ ∀ c, c ∈ deleted up →
      (c ∉ MemoryStore.clusters (Store._memory_store (ClusterStore._store self1)))
      ∧ (∀ disk, Store._disk_store (ClusterStore._store self1) = Some disk →
                 c ∉ DiskStore.clusters disk).
Proof.
  intros self1. split; [apply ClusterStore_update_eq |].
  intros c Hin. by apply Store_delete_clusters.
Qed.


Lemma ClusterStore_update_dispatch_witness :
  ClusterStore.update up_assign example_cluster_store
  = ClusterStore.assign up_assign
      (ClusterStore.with_store example_cluster_store
         (Store.delete (ClusterStore._store example_cluster_store) [1%Z]))
  ∧ (ClusterStore.update up_split example_cluster_store).1
    = Raise NotImplementedError
  ∧ 1%Z ∉ MemoryStore.clusters
            (Store._memory_store
               (ClusterStore._store
                  (ClusterStore.with_store example_cluster_store
                     (Store.delete (ClusterStore._store example_cluster_store)
                        [1%Z])))).
Proof.
  destruct (ClusterStore_update_dispatch up_assign example_cluster_store)
    as [Hassign Hdeleted].
  destruct (ClusterStore_update_dispatch up_split example_cluster_store)
    as [Hsplit _].
  split; [exact Hassign |]. split.
  - rewrite Hsplit. reflexivity.
  - exact (proj1 (Hdeleted 1%Z (list_elem_of_here 1%Z []))).
Defined.


(** ** Loading from the cluster store *)

Section load.
Implicit Types (self : ClusterStore.t) (name : string).
Implicit Types (ids clusters spikes : list Z).

Lemma mapM_res_cons {A B} (f : A → res B) (x : A) (l : list A) :
  mapM f (x :: l)
  = match f x with
    | Ok y => match mapM f l with
              | Ok k => Ok (y :: k)
              | Raise e => Raise e
              end
    | Raise e => Raise e
    end.
Proof. done. Qed.

Lemma mapM_res_Ok {A B} (f : A → res B) (l : list A) (k : list B) :
  Forall2 (λ x y, f x = Ok y) l k → mapM f l = Ok k.
Proof.
  induction 1 as [|x y l k Hx _ IH]; [done |].
  by rewrite mapM_res_cons, Hx, IH.
Qed.

Lemma mapM_res_Ok_inv {A B} (f : A → res B) (l : list A) (k : list B) :
  mapM f l = Ok k → Forall2 (λ x y, f x = Ok y) l k.
Proof.
  revert k. induction l as [|x l IH]; intros k.
  - intros [= <-]. constructor.
  - rewrite mapM_res_cons.
    destruct (f x) as [y|] eqn:Hx; [|done].
    destruct (mapM f l) as [k'|]; [|done].
    intros [= <-]. constructor; [done | by apply IH].
Qed.

Lemma np_concatenate_Ok {A} (arrays : list (list A)) :
  arrays ≠ [] → np_concatenate arrays = Ok (concat arrays).
Proof. by destruct arrays. Qed.

Lemma np_all_in1d_true (a b : list Z) :
  np_all_in1d a b = true ↔ ∀ x, x ∈ a → x ∈ b.
Proof.
  unfold np_all_in1d. rewrite forallb_forall. split.
  - intros Hall x Hx. apply list_elem_of_In in Hx.
    specialize (Hall x Hx). by apply bool_decide_eq_true in Hall.
  - intros Hall x Hx. apply list_elem_of_In in Hx.
    apply bool_decide_eq_true. by apply Hall.
Qed.

Lemma np_all_in1d_false (a b : list Z) (x : Z) :
  x ∈ a → x ∉ b → np_all_in1d a b = false.
Proof.
  intros Ha Hb. apply not_true_is_false. intros Hall.
  by apply Hb, (proj1 (np_all_in1d_true a b) Hall).
Qed.

(** The arrays of the clusters, concatenated in the order of [clusters]. *)
Lemma load_arrays_concat self name clusters (rowss : list (list value)) :
  clusters ≠ [] →
  Forall2 (λ c rows,
           Store.load (ClusterStore._store self) c (KStr name)
           = Ok (LVal (VArray rows))) clusters rowss →
  ClusterStore.load_arrays self name clusters = Ok (concat rowss).
Proof.
  intros Hne Hrows. unfold ClusterStore.load_arrays.
  rewrite (mapM_res_Ok _ _ ((λ rows, LVal (VArray rows)) <$> rowss)).
  2:{ apply Forall2_fmap_r. by eapply Forall2_impl; [exact Hrows |]. }
  unfold mbind at 1. unfold res_bind.
  rewrite (mapM_res_Ok _ _ rowss).
  2:{ apply Forall2_fmap_l, Forall_Forall2_diag, Forall_true. done. }
  apply np_concatenate_Ok.
  intros ->. apply Forall2_nil_inv_r in Hrows. done.
Qed.

(** The spikes of the clusters, concatenated in the order of [clusters]. *)
Lemma load_spike_clusters_concat self clusters (spikess : list (list Z)) :
  clusters ≠ [] →
  Forall2 (λ c sp, ClusterStore._spikes_per_cluster self !! c = Some sp)
          clusters spikess →
  ClusterStore.load_spike_clusters self clusters = Ok (concat spikess).
Proof.
  intros Hne Hspikes. unfold ClusterStore.load_spike_clusters.
  rewrite (mapM_res_Ok _ _ spikess).
  2:{ eapply Forall2_impl; [exact Hspikes |]. by intros c sp ->. }
  apply np_concatenate_Ok.
  intros ->. apply Forall2_nil_inv_r in Hspikes. done.
Qed.

End load.

Lemma Store_clusters_Raise (store : Store.t) (e : exn) :
  Store.clusters store = Raise e → e = RuntimeError.
Proof.
  unfold Store.clusters. destruct (Store._disk_store store); [|done].
  case_decide; [|done]. by intros [= <-].
Qed.

(** C2: [load(name, clusters, spikes)] concatenates the arrays
    [Store.load(cluster, name)] of the clusters in the order in which
    [clusters] lists them (ascending when [clusters] is), and the spikes
    of the clusters in that same order; what [load] returns is read from
    these two concatenations: the rows of the first at the positions
    that the requested spikes have in the second; and the call fails
    when a requested spike is not among the concatenated spikes. *)
Theorem ClusterStore_load_concatenates (self : ClusterStore.t)
    (name : string) (clusters spikes : list Z)
    (rowss : list (list value)) (spikess : list (list Z)) :
  clusters ≠ [] →
  Forall2 (λ c rows,
           Store.load (ClusterStore._store self) c (KStr name)
           = Ok (LVal (VArray rows))) clusters rowss →
  Forall2 (λ c sp, ClusterStore._spikes_per_cluster self !! c = Some sp)
          clusters spikess →
  ClusterStore.load_arrays self name clusters = Ok (concat rowss)
  ∧ ClusterStore.load_spike_clusters self clusters = Ok (concat spikess)
  ∧ (∀ l, Store.clusters (ClusterStore._store self) = Ok l →
          (∀ c, c ∈ clusters → c ∈ l) →
          ClusterStore.load self name clusters spikes
          = rows_of_spikes (concat rowss) (concat spikess) spikes)
  ∧ ∀ spike, spike ∈ spikes → spike ∉ concat spikess →
      ClusterStore.load self name clusters spikes = Raise RuntimeError
      ∨ ClusterStore.load self name clusters spikes = Raise AssertionError.
Proof.
  intros Hne Hrows Hspikes.
  pose proof (load_arrays_concat _ _ _ _ Hne Hrows) as Harrays.
  pose proof (load_spike_clusters_concat _ _ _ Hne Hspikes) as Hsc.
  split; [done |]. split; [done |]. split.
  - intros l Hl Hall. unfold ClusterStore.load. rewrite Hl.
    unfold mbind at 1. unfold res_bind at 1.
    rewrite (proj2 (np_all_in1d_true clusters l) Hall). cbn [negb].
    rewrite Harrays, Hsc. reflexivity.
  - intros spike Hin Hnotin. unfold ClusterStore.load.
    destruct (Store.clusters (ClusterStore._store self)) as [l|e] eqn:Hcl.
    + right. unfold mbind at 1. unfold res_bind.
      destruct (np_all_in1d clusters l); [|done]. simpl.
      rewrite Harrays, Hsc. unfold mbind, res_bind.
      by rewrite (np_all_in1d_false _ _ spike).
    + left. by rewrite (Store_clusters_Raise _ _ Hcl).
Qed.

(** The clusters are listed as 2 then 1: the arrays and the spikes are
    concatenated in that order, the rows of the spikes 10 and 12 are
    found at the positions 1 and 0, and the spike 13 makes the call
    fail. *)
Lemma ClusterStore_load_concatenates_witness :
  ClusterStore.load_arrays example_cluster_store "f" [2%Z; 1%Z]
  = Ok [VArray [VStr "f"; VInt 12]; VArray [VStr "f"; VInt 10];
        VArray [VStr "f"; VInt 11]]
  ∧ ClusterStore.load_spike_clusters example_cluster_store [2%Z; 1%Z]
    = Ok [12%Z; 10%Z; 11%Z]
  ∧ ClusterStore.load example_cluster_store "f" [2%Z; 1%Z] [10%Z; 12%Z]
    = rows_of_spikes
        [VArray [VStr "f"; VInt 12]; VArray [VStr "f"; VInt 10];
         VArray [VStr "f"; VInt 11]]
        [12%Z; 10%Z; 11%Z] [10%Z; 12%Z]
  ∧ ClusterStore.load example_cluster_store "f" [2%Z; 1%Z] [10%Z; 12%Z]
    = Ok (VArray [VArray [VStr "f"; VInt 10]; VArray [VStr "f"; VInt 12]])
  ∧ ClusterStore.load example_cluster_store "f" [2%Z; 1%Z] [10%Z; 13%Z]
    = Raise AssertionError.
Proof.
  destruct (ClusterStore_load_concatenates example_cluster_store "f"
              [2%Z; 1%Z] [10%Z; 12%Z]
              [[VArray [VStr "f"; VInt 12]];
               [VArray [VStr "f"; VInt 10]; VArray [VStr "f"; VInt 11]]]
              [[12%Z]; [10%Z; 11%Z]])
    as (Harrays & Hsc & Hload & _).
  - discriminate.
  - repeat constructor.
  - repeat constructor.
  - destruct (ClusterStore_load_concatenates example_cluster_store "f"
                [2%Z; 1%Z] [10%Z; 13%Z]
                [[VArray [VStr "f"; VInt 12]];
                 [VArray [VStr "f"; VInt 10]; VArray [VStr "f"; VInt 11]]]
                [[12%Z]; [10%Z; 11%Z]])
      as (_ & _ & _ & Hfail).
    + discriminate.
    + repeat constructor.
    + repeat constructor.
    + split; [exact Harrays |]. split; [exact Hsc |].
      assert (∀ c : Z, c ∈ [2%Z; 1%Z] → c ∈ [1%Z; 2%Z]) as Hall.
      { intros c Hc. apply elem_of_cons in Hc as [->|Hc].
        - apply list_elem_of_further, list_elem_of_here.
        - apply list_elem_of_singleton in Hc as ->. apply list_elem_of_here. }
      split; [exact (Hload [1%Z; 2%Z] eq_refl Hall) |].
      split; [rewrite (Hload [1%Z; 2%Z] eq_refl Hall); reflexivity |].
      destruct (Hfail 13%Z) as [Hrun|Hassert].
      * apply list_elem_of_further, list_elem_of_here.
      * vm_compute. intros Hin.
        repeat (apply elem_of_cons in Hin as [Heq|Hin]; [discriminate Heq |]).
        by apply elem_of_nil in Hin.
      * vm_compute in Hrun. discriminate Hrun.
      * exact Hassert.
Defined.

(** C2, as stated, fails when the clusters are not listed in ascending
    order: the arrays and the spikes are concatenated in the order of
    the list. *)
Lemma ClusterStore_load_order_counterexample :
  ClusterStore.load_arrays example_cluster_store "f" [2%Z; 1%Z]
  ≠ load_arrays_ascending example_cluster_store "f" [2%Z; 1%Z]
  ∧ ClusterStore.load_spike_clusters example_cluster_store [2%Z; 1%Z]
    ≠ load_spike_clusters_ascending example_cluster_store [2%Z; 1%Z]
  ∧ ClusterStore.load_spike_clusters example_cluster_store [2%Z; 1%Z]
    = Ok [12%Z; 10%Z; 11%Z]
  ∧ load_spike_clusters_ascending example_cluster_store [2%Z; 1%Z]
    = Ok [10%Z; 11%Z; 12%Z].
Proof.
  split; [|split; [|split]].
  - vm_compute. discriminate.
  - vm_compute. discriminate.
  - reflexivity.
  - reflexivity.
Qed.

(** ** Generating the cluster store *)

Section store_step.
Implicit Types (store : Store.t) (data : dict) (c cluster : Z) (name : string).

Lemma consistent_clusters store :
  consistent store ↔
  Store.clusters store = Ok (MemoryStore.clusters (Store._memory_store store)).
Proof.
  unfold consistent, Store.clusters.
  destruct (Store._disk_store store) as [disk|]; [|done].
  split.
  - intros Hdom. rewrite decide_False; [done |].
    intros Hne. apply Hne. by apply sorted_keys_eq_iff, Hdom.
  - case_decide as Hne; [done |]. intros _ disk' [= <-].
    apply sorted_keys_eq_iff. exact Hne.
Qed.

Lemma consistent_of_clusters store (l : list Z) :
  Store.clusters store = Ok l → consistent store.
Proof.
  intros Hl. apply consistent_clusters. rewrite Hl. f_equal.
  unfold Store.clusters in Hl.
  destruct (Store._disk_store store); [case_decide |]; congruence.
Qed.

Lemma DiskStore_cluster_file_store (disk : DiskStore.t) c data c' :
  DiskStore._cluster_file (DiskStore.store disk c data) c'
  = if decide (c = c') then dict_update (DiskStore._cluster_file disk c) data
    else DiskStore._cluster_file disk c'.
Proof.
  unfold DiskStore._cluster_file at 1.
  rewrite DiskStore_store_files, lookup_insert. by case_decide.
Qed.

Lemma has_tier_store_None store c data name :
  has_tier (Store.store c None data store).2 name = has_tier store name.
Proof.
  rewrite Store_store_None. unfold has_tier. simpl.
  destruct (Store._dispatch store !! name) as [location|]; [|done].
  repeat case_decide; try done.
  by destruct (Store._disk_store store).
Qed.

Lemma consistent_store_None store c data :
  consistent store → consistent (Store.store c None data store).2.
Proof.
  rewrite Store_store_None. unfold consistent.
  cbn [snd Store._memory_store Store._disk_store]. intros Hdom disk' Hdisk'.
  destruct (Store._disk_store store) as [disk|]; [|done].
  injection Hdisk' as <-.
  by rewrite MemoryStore_dom_store, DiskStore_dom_store, (Hdom disk).
Qed.

Lemma dom_store_None store c data :
  dom (MemoryStore._ds (Store._memory_store (Store.store c None data store).2))
  = {[c]} ∪ dom (MemoryStore._ds (Store._memory_store store)).
Proof. rewrite Store_store_None. apply MemoryStore_dom_store. Qed.

(** Loading one field after a [store] without location: the value just
    stored for that cluster and field, and otherwise what was there. *)
Lemma Store_load_store_None store c data c' name :
  has_tier store name = true →
  Store.load (Store.store c None data store).2 c' (KStr name)
  = if decide (c = c') then
      match data !! name with
      | Some v => Ok (LVal v)
      | None => Store.load store c' (KStr name)
      end
    else Store.load store c' (KStr name).
Proof.
  intros Htier. rewrite Store_store_None. cbn [snd].
  unfold has_tier in Htier.
  destruct (Store._dispatch store !! name) as [location|] eqn:Hname; [|done].
  destruct (decide (location = "memory")) as [->|Hnm].
  - rewrite !Store_load_memory by done. cbn [Store._memory_store].
    rewrite MemoryStore_record_store.
    destruct (decide (c = c')) as [<-|]; [|done].
    unfold dict_get. rewrite lookup_dict_update, lookup_routed.
    rewrite decide_True by done. by destruct (data !! name).
  - destruct (decide (location = "disk")) as [->|]; [|done].
    apply bool_decide_eq_true in Htier as [disk Hdisk].
    rewrite (Store_load_disk store c' name disk) by done.
    erewrite Store_load_disk;
      [|done | cbn [Store._disk_store]; by rewrite Hdisk].
    rewrite DiskStore_cluster_file_store.
    destruct (decide (c = c')) as [<-|]; [|done].
    unfold DiskStore._get. rewrite lookup_dict_update, lookup_routed.
    rewrite decide_True by done. by destruct (data !! name).
Qed.

End store_step.

Section generate.
Implicit Types (self : ClusterStore.t) (store : Store.t) (p : provider).
Implicit Types (ps : list provider) (spc : gmap Z (list Z)).
Implicit Types (c cluster : Z) (cls : list Z) (name : string).

Lemma lookup_provider_data p (spikes : list Z) name :
  provider_data p spikes !! name
  = if decide (declares p name)
    then Some (VArray (provider_value p name <$> spikes)) else None.
Proof. apply lookup_dict_comp. Qed.

(** [store_from_model] of a per-spike provider never raises. *)
Lemma store_from_model_item_of p c (spikes : list Z) store :
  StoreItem.store_from_model (item_of p) c spikes store
  = (Ok tt, (Store.store c None (provider_data p spikes) store).2).
Proof.
  unfold item_of, per_spike_item, StoreItem.subclass, provider_data.
  cbn [StoreItem.store_from_model]. by rewrite Store_store_None.
Qed.

Lemma store_provider_eq spc p store c :
  store_provider spc p store c
  = (Store.store c None (provider_data p (spikes_of spc c)) store).2.
Proof. unfold store_provider. by rewrite store_from_model_item_of. Qed.

Lemma with_store_with_store self store store' :
  ClusterStore.with_store (ClusterStore.with_store self store) store'
  = ClusterStore.with_store self store'.
Proof. done. Qed.

Lemma with_store_id self :
  ClusterStore.with_store self (ClusterStore._store self) = self.
Proof. by destruct self. Qed.

(** The inner loop of [generate], for one provider. *)
Lemma generate_inner_loop spc p cls self :
  Forall (λ c, is_Some (spc !! c)) cls →
  for_each cls (λ cluster,
    match spc !! cluster with
    | Some spikes =>
        ClusterStore.on_store
          (StoreItem.store_from_model (item_of p) cluster spikes)
    | None => lift (Raise KeyError)
    end) self
  = (Ok tt,
     ClusterStore.with_store self
       (foldl (store_provider spc p) (ClusterStore._store self) cls)).
Proof.
  intros Hcls. revert self.
  induction Hcls as [|c cls [spikes Hc] _ IH]; intros self.
  - simpl. by rewrite with_store_id.
  - cbn [for_each foldl]. unfold mbind, M_bind. rewrite Hc.
    unfold ClusterStore.on_store at 1. rewrite store_from_model_item_of.
    rewrite IH, with_store_with_store. cbn [ClusterStore.with_store ClusterStore._store].
    rewrite store_provider_eq. unfold spikes_of. by rewrite Hc.
Qed.

(** The two loops of [generate]. *)
Lemma generate_loops spc ps cls self :
  Forall (λ c, is_Some (spc !! c)) cls →
  for_each (item_of <$> ps) (λ item,
    for_each cls (λ cluster,
      match spc !! cluster with
      | Some spikes =>
          ClusterStore.on_store
            (StoreItem.store_from_model item cluster spikes)
      | None => lift (Raise KeyError)
      end)) self
  = (Ok tt,
     ClusterStore.with_store self
       (generate_store spc ps cls (ClusterStore._store self))).
Proof.
  intros Hcls. revert self. induction ps as [|p ps IH]; intros self.
  - simpl. by rewrite with_store_id.
  - cbn [fmap list_fmap for_each]. unfold mbind, M_bind.
    rewrite (generate_inner_loop spc p cls self Hcls).
    by rewrite IH, with_store_with_store.
Qed.

(** [generate] with per-spike providers: it does not raise, replaces the
    spikes of the clusters and leaves the store in the state reached by
    the calls of [store_from_model]. *)
Lemma generate_per_spike spc ps self :
  ClusterStore._items self = item_of <$> ps →
  ClusterStore.generate spc self
  = (Ok tt,
     {| ClusterStore._model := ClusterStore._model self;
        ClusterStore._spikes_per_cluster := spc;
        ClusterStore._store :=
          generate_store spc ps (sorted (dict_keys spc))
            (ClusterStore._store self);
        ClusterStore._items := ClusterStore._items self;
        ClusterStore._object_attrs := ClusterStore._object_attrs self;
        ClusterStore._accessors := ClusterStore._accessors self |}).
Proof.
  intros Hitems. unfold ClusterStore.generate.
  unfold mbind at 1 2. unfold M_bind, modify, get.
  cbn [ClusterStore._items]. rewrite Hitems, generate_loops; [done |].
  apply Forall_forall. intros c Hc.
  by apply elem_of_sorted, elem_of_dict_keys in Hc.
Qed.

End generate.

Section generate_invariants.
Implicit Types (store : Store.t) (p : provider) (ps : list provider).
Implicit Types (spc : gmap Z (list Z)) (c cluster : Z) (cls : list Z).
Implicit Types (name : string).

Lemma has_tier_inner_fold spc p cls store name :
  has_tier (foldl (store_provider spc p) store cls) name = has_tier store name.
Proof.
  revert store. induction cls as [|c cls IH]; intros store; [done |].
  cbn [foldl]. by rewrite IH, store_provider_eq, has_tier_store_None.
Qed.

Lemma has_tier_generate_store spc ps cls store name :
  has_tier (generate_store spc ps cls store) name = has_tier store name.
Proof.
  unfold generate_store. revert store.
  induction ps as [|p ps IH]; intros store; [done |].
  cbn [foldl]. by rewrite IH, has_tier_inner_fold.
Qed.

Lemma consistent_inner_fold spc p cls store :
  consistent store → consistent (foldl (store_provider spc p) store cls).
Proof.
  revert store. induction cls as [|c cls IH]; intros store Hst; [done |].
  cbn [foldl]. apply IH. rewrite store_provider_eq.
  by apply consistent_store_None.
Qed.

Lemma consistent_generate_store spc ps cls store :
  consistent store → consistent (generate_store spc ps cls store).
Proof.
  unfold generate_store. revert store.
  induction ps as [|p ps IH]; intros store Hst; [done |].
  cbn [foldl]. by apply IH, consistent_inner_fold.
Qed.

Lemma dom_inner_fold spc p cls store :
  dom (MemoryStore._ds
         (Store._memory_store (foldl (store_provider spc p) store cls)))
  = list_to_set cls ∪ dom (MemoryStore._ds (Store._memory_store store)).
Proof.
  revert store. induction cls as [|c cls IH]; intros store.
  - simpl. by rewrite (left_id_L ∅ (∪)).
  - cbn [foldl]. rewrite IH, store_provider_eq, dom_store_None.
    rewrite list_to_set_cons, (assoc_L (∪)).
    by rewrite (comm_L (∪) (list_to_set cls)).
Qed.

Lemma dom_generate_store_mono spc ps cls store c :
  c ∈ dom (MemoryStore._ds (Store._memory_store store)) →
  c ∈ dom (MemoryStore._ds
             (Store._memory_store (generate_store spc ps cls store))).
Proof.
  unfold generate_store. revert store.
  induction ps as [|p ps IH]; intros store Hc; [done |].
  cbn [foldl]. apply IH. rewrite dom_inner_fold. apply elem_of_union. by right.
Qed.


Lemma load_store_provider spc p store c c' name :
  has_tier store name = true →
  Store.load (store_provider spc p store c) c' (KStr name)
  = if decide (c = c' ∧ declares p name)
    then Ok (LVal (VArray (provider_value p name <$> spikes_of spc c')))
    else Store.load store c' (KStr name).
Proof.
  intros Htier.
  rewrite store_provider_eq, Store_load_store_None, lookup_provider_data by done.
  destruct (decide (c = c')) as [<-|Hne].
  - destruct (decide (declares p name)) as [Hd|Hd].
    + by rewrite decide_True.
    + rewrite decide_False; [done |]. by intros [_ ?].
  - rewrite decide_False; [done |]. by intros [? _].
Qed.

(** After the inner loop of a provider that declares the field, each
    cluster of the loop holds the values of its spikes. *)
Lemma load_inner_fold spc p cls store c' name :
  has_tier store name = true →
  Store.load (foldl (store_provider spc p) store cls) c' (KStr name)
  = if decide (c' ∈ cls ∧ declares p name)
    then Ok (LVal (VArray (provider_value p name <$> spikes_of spc c')))
    else Store.load store c' (KStr name).
Proof.
  revert store. induction cls as [|c cls IH]; intros store Htier.
  - rewrite decide_False; [done |]. intros [Hin _]. by apply elem_of_nil in Hin.
  - cbn [foldl]. rewrite IH by (by rewrite store_provider_eq, has_tier_store_None).
    rewrite load_store_provider by done.
    destruct (decide (declares p name)) as [Hd|Hd].
    + destruct (decide (c' ∈ cls)) as [Hin|Hin].
      * rewrite !decide_True; [done | | done]. split; [by right | done].
      * rewrite (decide_False (P := c' ∈ cls ∧ declares p name))
          by (by intros [? _]).
        destruct (decide (c = c')) as [<-|Hne].
        -- rewrite !decide_True; [done | | done]. split; [by left | done].
        -- rewrite !decide_False; [done | |].
           ++ intros [[->|?]%elem_of_cons _]; done.
           ++ by intros [? _].
    + rewrite !decide_False; [done | | |]; by intros [_ ?].
Qed.

(** After [generate], each cluster of the loop holds, for a field that
    some provider declares, the values of its spikes. *)
Lemma load_generate_store spc ps cls store c' name (value_for : Z → value) :
  has_tier store name = true →
  Forall (λ p, declares p name →
               ∀ spike, provider_value p name spike = value_for spike) ps →
  c' ∈ cls →
  Exists (λ p, declares p name) ps
  ∨ Store.load store c' (KStr name)
    = Ok (LVal (VArray (value_for <$> spikes_of spc c'))) →
  Store.load (generate_store spc ps cls store) c' (KStr name)
  = Ok (LVal (VArray (value_for <$> spikes_of spc c'))).
Proof.
  intros Htier Hagree Hc'. unfold generate_store. revert store Htier.
  induction Hagree as [|p ps Hp _ IH]; intros store Htier Hgood.
  - destruct Hgood as [Hex|Hload]; [by apply Exists_nil in Hex | done].
  - cbn [foldl]. apply IH; [by rewrite has_tier_inner_fold |].
    rewrite load_inner_fold by done.
    destruct (decide (declares p name)) as [Hd|Hd].
    + right. rewrite decide_True by done. do 3 f_equal.
      apply list_fmap_ext. intros _ spike _. by apply Hp.
    + rewrite decide_False by (by intros [_ ?]).
      destruct Hgood as [Hex|Hload]; [|by right].
      left. by apply Exists_cons in Hex as [?|?].
Qed.

End generate_invariants.

(** ** Loading after [generate] *)

Section per_spike_load.
Implicit Types (value_for : Z → value) (spikes lookup : list Z).




End per_spike_load.






(** * Further properties *)

(** ** Storing in and loading from one tier *)

Section tier_round_trip.
Implicit Types (data : dict) (c cluster : Z) (key : string).

(** [MemoryStore.load] reads the record of the cluster only. *)
Lemma MemoryStore_load_ext (m1 m2 : MemoryStore.t) c (ks : keys) :
  MemoryStore._ds m1 !! c = MemoryStore._ds m2 !! c →
  MemoryStore.load m1 c ks = MemoryStore.load m2 c ks.
Proof.
  intros Heq. unfold MemoryStore.load, MemoryStore.record. by rewrite Heq.
Qed.

(** [DiskStore.load] reads the container of the cluster only. *)
Lemma DiskStore_load_ext (d1 d2 : DiskStore.t) c (ks : keys) :
  DiskStore._files d1 !! c = DiskStore._files d2 !! c →
  DiskStore.load d1 c ks = DiskStore.load d2 c ks.
Proof.
  intros Heq.
  unfold DiskStore.load, DiskStore._cluster_file_exists, DiskStore._cluster_file.
  rewrite Heq.
  assert (bool_decide (c ∈ dom (DiskStore._files d1))
          = bool_decide (c ∈ dom (DiskStore._files d2))) as ->; [|done].
  apply bool_decide_ext. by rewrite !elem_of_dom, Heq.
Qed.

End tier_round_trip.

(** X1: after [MemoryStore.store(cluster, **data)], loading a field of
    [data] for that cluster returns the stored value, a field that
    [data] lacks keeps the value it had, the records of the other
    clusters are what they were, and the cluster is listed. *)
Theorem MemoryStore_store_then_load (self : MemoryStore.t) (c : Z)
    (data : dict) :
  (∀ key v, data !! key = Some v →
     MemoryStore.load (MemoryStore.store self c data) c (KStr key)
     = Ok (LVal v))
  ∧ (∀ key, data !! key = None →
       MemoryStore.load (MemoryStore.store self c data) c (KStr key)
       = MemoryStore.load self c (KStr key))
  ∧ (∀ c' ks, c ≠ c' →
       MemoryStore.load (MemoryStore.store self c data) c' ks
       = MemoryStore.load self c' ks)
  ∧ c ∈ MemoryStore.clusters (MemoryStore.store self c data).
Proof.
  split; [|split; [|split]].
  - intros key v Hkey. unfold MemoryStore.load, dict_get.
    rewrite MemoryStore_record_store, decide_True by done.
    by rewrite lookup_dict_update, Hkey.
  - intros key Hkey. unfold MemoryStore.load, dict_get.
    rewrite MemoryStore_record_store, decide_True by done.
    by rewrite lookup_dict_update, Hkey.
  - intros c' ks Hne. apply MemoryStore_load_ext.
    by rewrite MemoryStore_store_ds, lookup_insert_ne.
  - rewrite elem_of_MemoryStore_clusters, MemoryStore_dom_store.
    apply elem_of_union. left. by apply elem_of_singleton.
Qed.

Lemma MemoryStore_store_then_load_witness :
  MemoryStore.load (MemoryStore.store MemoryStore.init 5 example_data) 5
    (KStr "mean") = Ok (LVal (VInt 12))
  ∧ MemoryStore.load (MemoryStore.store MemoryStore.init 5 example_data) 5
      (KStr "other") = Ok (LVal VNone)
  ∧ MemoryStore.load (MemoryStore.store MemoryStore.init 5 example_data) 6
      KNone = Ok (LDict ∅).
Proof.
  destruct (MemoryStore_store_then_load MemoryStore.init 5 example_data)
    as (Hstored & Hkept & Hother & _).
  split; [exact (Hstored "mean" (VInt 12) eq_refl) |]. split.
  - rewrite (Hkept "other" eq_refl). reflexivity.
  - rewrite (Hother 6%Z KNone) by discriminate. reflexivity.
Defined.

(** X2: after [DiskStore.store(cluster, **data)], loading a field of
    [data] for that cluster returns the stored value, a field that
    [data] lacks keeps the value it had, the containers of the other
    clusters are what they were, and the container of the cluster
    exists, even when [data] is empty. *)
Theorem DiskStore_store_then_load (self : DiskStore.t) (c : Z) (data : dict) :
  (∀ key v, data !! key = Some v →
     DiskStore.load (DiskStore.store self c data) c (KStr key) = Ok (LVal v))
  ∧ (∀ key, data !! key = None →
       DiskStore.load (DiskStore.store self c data) c (KStr key)
       = Ok (LVal (DiskStore._get (DiskStore._cluster_file self c) key)))
  ∧ (∀ c' ks, c ≠ c' →
       DiskStore.load (DiskStore.store self c data) c' ks
       = DiskStore.load self c' ks)
  ∧ c ∈ DiskStore.clusters (DiskStore.store self c data).
Proof.
  assert (DiskStore._cluster_file_exists (DiskStore.store self c data) c
          = true) as Hexists.
  { eapply DiskStore_exists_true.
    by rewrite DiskStore_store_files, lookup_insert_eq. }
  split; [|split; [|split]].
  - intros key v Hkey. unfold DiskStore.load. rewrite Hexists. cbn [negb].
    unfold DiskStore._get.
    rewrite DiskStore_cluster_file_store, decide_True by done.
    by rewrite lookup_dict_update, Hkey.
  - intros key Hkey. unfold DiskStore.load. rewrite Hexists. cbn [negb].
    unfold DiskStore._get.
    rewrite DiskStore_cluster_file_store, decide_True by done.
    by rewrite lookup_dict_update, Hkey.
  - intros c' ks Hne. apply DiskStore_load_ext.
    by rewrite DiskStore_store_files, lookup_insert_ne.
  - rewrite elem_of_DiskStore_clusters, DiskStore_dom_store.
    apply elem_of_union. left. by apply elem_of_singleton.
Qed.

Lemma DiskStore_store_then_load_witness :
  DiskStore.load (DiskStore.store (DiskStore.init "/store" ∅) 5 example_data)
    5 (KStr "mean") = Ok (LVal (VInt 12))
  ∧ DiskStore.load (DiskStore.store (DiskStore.init "/store" ∅) 5 example_data)
      5 (KStr "other") = Ok (LVal VNone)
  ∧ DiskStore.clusters (DiskStore.store (DiskStore.init "/store" ∅) 5 ∅)
    = [5%Z].
Proof.
  destruct (DiskStore_store_then_load (DiskStore.init "/store" ∅) 5
              example_data) as (Hstored & Hkept & _ & _).
  split; [exact (Hstored "mean" (VInt 12) eq_refl) |]. split.
  - rewrite (Hkept "other" eq_refl). reflexivity.
  - reflexivity.
Defined.

(** ** Deleting and clearing *)

Section delete_clear.
Implicit Types (cs l : list Z) (c : Z).

Lemma StronglySorted_filter_le (P : Z → Prop) `{!∀ x, Decision (P x)} l :
  StronglySorted Z.le l → StronglySorted Z.le (filter P l).
Proof.
  induction 1 as [|x l _ IH Hx]; [constructor |].
  rewrite filter_cons. case_decide; [|done].
  constructor; [done |].
  apply Forall_forall. intros y [_ Hy]%list_elem_of_filter.
  by apply (proj1 (Forall_forall _ _) Hx).
Qed.

Lemma Sorted_filter_sorted (P : Z → Prop) `{!∀ x, Decision (P x)} l :
  Sorted Z.le (filter P (sorted l)).
Proof.
  apply StronglySorted_Sorted, StronglySorted_filter_le.
  apply Sorted_StronglySorted; [apply _ | apply Sorted_sorted].
Qed.

(** The sorted keys of a map from which the loop of [delete] removed the
    clusters [cs]. *)
Lemma sorted_keys_delete {A} (m m' : gmap Z A) cs :
  (∀ c, m' !! c = if decide (c ∈ cs) then None else m !! c) →
  sorted (dict_keys m') = filter (λ c, c ∉ cs) (sorted (dict_keys m)).
Proof.
  intros Hm'. apply (Sorted_unique Z.le).
  - apply Sorted_sorted.
  - apply Sorted_filter_sorted.
  - rewrite sorted_Permutation. apply NoDup_Permutation.
    + apply NoDup_dict_keys.
    + apply NoDup_filter, NoDup_sorted, NoDup_dict_keys.
    + intros c. rewrite list_elem_of_filter, elem_of_sorted.
      rewrite !elem_of_dict_keys, Hm'.
      destruct (decide (c ∈ cs)) as [Hc|Hc].
      * split; [by intros [? ?] | by intros [? _]].
      * split; [by intros ? | by intros [_ ?]].
Qed.

Lemma MemoryStore_clusters_delete (mem : MemoryStore.t) cs :
  MemoryStore.clusters (MemoryStore.delete mem cs)
  = filter (λ c, c ∉ cs) (MemoryStore.clusters mem).
Proof.
  apply sorted_keys_delete. intros c. apply MemoryStore_delete_lookup.
Qed.

Lemma DiskStore_clusters_delete (disk : DiskStore.t) cs :
  DiskStore.clusters (DiskStore.delete disk cs)
  = filter (λ c, c ∉ cs) (DiskStore.clusters disk).
Proof.
  apply sorted_keys_delete. intros c. apply DiskStore_delete_lookup.
Qed.

Lemma sorted_keys_empty {A} : sorted (dict_keys (∅ : gmap Z A)) = [].
Proof. unfold dict_keys. by rewrite map_to_list_empty. Qed.

Lemma MemoryStore_clear_ds (mem : MemoryStore.t) :
  MemoryStore._ds (MemoryStore.clear mem) = ∅.
Proof.
  apply map_eq. intros c. unfold MemoryStore.clear.
  rewrite MemoryStore_delete_lookup, lookup_empty.
  case_decide as Hc; [done |].
  by rewrite elem_of_MemoryStore_clusters, not_elem_of_dom in Hc.
Qed.

Lemma DiskStore_clear_files (disk : DiskStore.t) :
  DiskStore._files (DiskStore.clear disk) = ∅.
Proof.
  apply map_eq. intros c. unfold DiskStore.clear.
  rewrite DiskStore_delete_lookup, lookup_empty.
  case_decide as Hc; [done |].
  by rewrite elem_of_DiskStore_clusters, not_elem_of_dom in Hc.
Qed.

(** [Store.load] reads the routing table and, in each tier, what the
    tier holds for the cluster. *)
Lemma Store_load_ext (s1 s2 : Store.t) c (ks : keys) :
  Store._dispatch s1 = Store._dispatch s2 →
  MemoryStore._ds (Store._memory_store s1) !! c
  = MemoryStore._ds (Store._memory_store s2) !! c →
  option_Forall2 (λ d1 d2, DiskStore._files d1 !! c = DiskStore._files d2 !! c)
                 (Store._disk_store s1) (Store._disk_store s2) →
  Store.load s1 c ks = Store.load s2 c ks.
Proof.
  intros Hdispatch Hmem Hdisk.
  assert (∀ ks', MemoryStore.load (Store._memory_store s1) c ks'
                 = MemoryStore.load (Store._memory_store s2) c ks') as Hm.
  { intros ks'. by apply MemoryStore_load_ext. }
  assert (∀ oks, Store.load_all s1 c oks = Store.load_all s2 c oks) as Hall.
  { intros oks. unfold Store.load_all, Store._filter.
    rewrite Hdispatch, Hm.
    destruct Hdisk as [d1 d2 Hd|]; [|done].
    by rewrite (DiskStore_load_ext d1 d2 c _ Hd). }
  destruct ks as [|key|ks'|ks'|]; cbn [Store.load]; try done.
  rewrite Hdispatch, Hm.
  destruct Hdisk as [d1 d2 Hd|]; [|done].
  by rewrite (DiskStore_load_ext d1 d2 c _ Hd).
Qed.

End delete_clear.

(** X3: when the two tiers agree on the clusters, [Store.delete(clusters)]
    leaves them in agreement and removes from the list of clusters the
    deleted ones and no other; a deleted cluster then loads as the
    empty dictionary, and every load of another cluster returns what
    it returned before. *)
Theorem Store_delete_spec (self : Store.t) (cs l : list Z) :
  Store.clusters self = Ok l →
  Store.clusters (Store.delete self cs) = Ok (filter (λ c, c ∉ cs) l)
  ∧ (∀ c, c ∈ cs →
       Store.load (Store.delete self cs) c KNone = Ok (LDict ∅))
  ∧ (∀ c ks, c ∉ cs →
       Store.load (Store.delete self cs) c ks = Store.load self c ks).
Proof.
  intros Hl. split; [|split].
  - unfold Store.clusters in *.
    rewrite Store_delete_memory, Store_delete_disk.
    rewrite MemoryStore_clusters_delete.
    destruct (Store._disk_store self) as [disk|]; cbn [fmap option_fmap option_map].
    + rewrite DiskStore_clusters_delete.
      destruct (decide (MemoryStore.clusters (Store._memory_store self)
                        ≠ DiskStore.clusters disk)) as [|Heq]; [done |].
      injection Hl as <-. apply dec_stable in Heq. rewrite <- Heq.
      rewrite decide_False; [done |]. by intros [].
    + by injection Hl as <-.
  - intros c Hc. unfold Store.load. rewrite Store_load_all_eq.
    rewrite Store_delete_memory, Store_delete_disk.
    cbn [Store._filter memory_dict]. unfold MemoryStore.record.
    rewrite MemoryStore_delete_lookup, decide_True by done.
    destruct (Store._disk_store self) as [disk|];
      cbn [fmap option_fmap option_map default].
    + unfold disk_dict. rewrite DiskStore_delete_lookup, decide_True by done.
      by rewrite (left_id_L ∅ (∪)).
    + by rewrite (left_id_L ∅ (∪)).
  - intros c ks Hc. apply Store_load_ext; [done | |].
    + by rewrite Store_delete_memory, MemoryStore_delete_lookup, decide_False.
    + rewrite Store_delete_disk.
      destruct (Store._disk_store self) as [disk|]; constructor.
      by rewrite DiskStore_delete_lookup, decide_False.
Qed.

Lemma Store_delete_spec_witness :
  let self := ClusterStore._store example_cluster_store in
  Store.clusters self = Ok [1%Z; 2%Z]
  ∧ Store.clusters (Store.delete self [1%Z; 7%Z]) = Ok [2%Z]
  ∧ Store.load (Store.delete self [1%Z; 7%Z]) 1 KNone = Ok (LDict ∅)
  ∧ Store.load (Store.delete self [1%Z; 7%Z]) 2 (KStr "f")
    = Ok (LVal (VArray [VArray [VStr "f"; VInt 12]])).
Proof.
  intros self.
  destruct (Store_delete_spec self [1%Z; 7%Z] [1%Z; 2%Z] eq_refl)
    as (Hclusters & Hdeleted & Hother).
  split; [reflexivity |]. split; [exact Hclusters |]. split.
  - apply Hdeleted, list_elem_of_here.
  - rewrite Hother; [reflexivity |].
    intros Hin.
    repeat (apply elem_of_cons in Hin as [Heq|Hin]; [discriminate Heq |]).
    by apply elem_of_nil in Hin.
Defined.

(** X4: [Store.clear()] empties both tiers, whatever they held: the list
    of clusters is empty (also when the tiers disagreed before), every
    cluster loads as the empty dictionary, and the routing table is
    kept. *)
Theorem Store_clear_spec (self : Store.t) :
  Store.clusters (Store.clear self) = Ok []
  ∧ Store._dispatch (Store.clear self) = Store._dispatch self
  ∧ ∀ c, Store.load (Store.clear self) c KNone = Ok (LDict ∅).
Proof.
  split; [|split; [done |]].
  - unfold Store.clusters, Store.clear. cbn [Store._memory_store Store._disk_store].
    unfold MemoryStore.clusters, DiskStore.clusters.
    rewrite MemoryStore_clear_ds, (sorted_keys_empty (A := dict)).
    destruct (Store._disk_store self) as [disk|];
      cbn [fmap option_fmap option_map]; [|done].
    rewrite DiskStore_clear_files. reflexivity.
  - intros c. unfold Store.load. rewrite Store_load_all_eq.
    unfold Store.clear. cbn [Store._memory_store Store._disk_store Store._filter memory_dict].
    unfold MemoryStore.record. rewrite MemoryStore_clear_ds, lookup_empty.
    destruct (Store._disk_store self) as [disk|];
      cbn [fmap option_fmap option_map default].
    + unfold disk_dict. rewrite DiskStore_clear_files, lookup_empty.
      by rewrite (left_id_L ∅ (∪)).
    + by rewrite (left_id_L ∅ (∪)).
Qed.

(** X5: when [Store.clusters] returns, the list is in ascending order,
    has no duplicate, and lists exactly the clusters that the memory
    store holds, which are also those that the disk store holds when
    there is one. *)
Theorem Store_clusters_sorted (self : Store.t) (l : list Z) :
  Store.clusters self = Ok l →
  Sorted Z.le l
  ∧ NoDup l
  ∧ (∀ c, c ∈ l ↔ is_Some (MemoryStore._ds (Store._memory_store self) !! c))
  ∧ (∀ disk, Store._disk_store self = Some disk →
       ∀ c, c ∈ l ↔ is_Some (DiskStore._files disk !! c)).
Proof.
  intros Hl.
  pose proof (consistent_of_clusters self l Hl) as Hcons.
  rewrite (proj1 (consistent_clusters self) Hcons) in Hl. injection Hl as <-.
  split; [apply Sorted_sorted |].
  split; [apply NoDup_sorted, NoDup_dict_keys |].
  split.
  - intros c. by rewrite elem_of_MemoryStore_clusters, elem_of_dom.
  - intros disk Hdisk c.
    by rewrite elem_of_MemoryStore_clusters, (Hcons disk Hdisk), elem_of_dom.
Qed.

Lemma Store_clusters_sorted_witness :
  Sorted Z.le [1%Z; 2%Z] ∧ NoDup [1%Z; 2%Z].
Proof.
  destruct (Store_clusters_sorted (ClusterStore._store example_cluster_store)
              [1%Z; 2%Z] eq_refl) as (Hsorted & Hnodup & _).
  by split.
Defined.

(** ** Registering fields and storing with a location *)

Section register.
Implicit Types (self : Store.t) (data : dict) (c : Z).
Implicit Types (name location key : string) (ks : list string).

Lemma with_dispatch_id self : with_dispatch self (Store._dispatch self) = self.
Proof. by destruct self. Qed.

Lemma register_field_valid name location self :
  location ∈ ["memory"; "disk"] →
  Store.register_field name location self
  = (Ok tt, with_dispatch self (<[name := location]> (Store._dispatch self))).
Proof.
  intros Hloc. unfold Store.register_field, Store._check_location.
  run_M. by rewrite decide_True.
Qed.

Lemma register_field_invalid name location self :
  location ∉ ["memory"; "disk"] →
  Store.register_field name location self = (Raise ValueError, self).
Proof.
  intros Hloc. unfold Store.register_field, Store._check_location.
  run_M. by rewrite decide_False.
Qed.

(** The loop of [store] that registers the fields of [data]. *)
Lemma register_fields_loop ks location self :
  location ∈ ["memory"; "disk"] →
  for_each ks (λ key, Store.register_field key location) self
  = (Ok tt,
     with_dispatch self
       (foldl (λ d key, <[key := location]> d) (Store._dispatch self) ks)).
Proof.
  intros Hloc. revert self. induction ks as [|key ks IH]; intros self.
  - cbn [for_each foldl]. by rewrite with_dispatch_id.
  - cbn [for_each foldl]. unfold mbind, M_bind.
    by rewrite register_field_valid, IH.
Qed.

Lemma lookup_register_loop (d : gmap string string) ks location key :
  foldl (λ d key, <[key := location]> d) d ks !! key
  = if decide (key ∈ ks) then Some location else d !! key.
Proof.
  revert d. induction ks as [|k ks IH]; intros d.
  - rewrite decide_False; [done | apply not_elem_of_nil].
  - cbn [foldl]. rewrite IH.
    destruct (decide (key ∈ ks)) as [Hin|Hin].
    + rewrite decide_True; [done | by right].
    + destruct (decide (k = key)) as [->|Hne].
      * rewrite decide_True; [apply lookup_insert_eq | by left].
      * rewrite decide_False; [by apply lookup_insert_ne |].
        intros [->|?]%elem_of_cons; done.
Qed.

(** [store] with a valid location is [store] without location on the
    store in which the fields of [data] are registered there. *)
Lemma Store_store_Some c location data self :
  location ∈ ["memory"; "disk"] →
  Store.store c (Some location) data self
  = Store.store c None data
      (with_dispatch self (registered_dispatch self location data)).
Proof.
  intros Hloc. unfold Store.store at 1.
  rewrite decide_True by done.
  unfold mbind at 1. unfold M_bind at 1.
  rewrite register_fields_loop by done.
  unfold Store.store. by run_M.
Qed.

Lemma Store_store_invalid c location data self :
  location ∉ ["memory"; "disk"] →
  Store.store c (Some location) data self = (Raise ValueError, self).
Proof.
  intros Hloc. unfold Store.store, Store._check_location.
  rewrite !decide_False by done. by run_M.
Qed.

Lemma consistent_with_dispatch self (dispatch : gmap string string) :
  consistent self → consistent (with_dispatch self dispatch).
Proof. done. Qed.

(** [store] keeps the two tiers on the same clusters, with or without a
    location, whether it returns or raises. *)
Lemma consistent_store c (location : option string) data self :
  consistent self → consistent (Store.store c location data self).2.
Proof.
  intros Hcons. destruct location as [location|].
  - destruct (decide (location ∈ ["memory"; "disk"])) as [Hloc|Hloc].
    + rewrite Store_store_Some by done.
      by apply consistent_store_None, consistent_with_dispatch.
    + by rewrite Store_store_invalid.
  - by apply consistent_store_None.
Qed.

Lemma consistent_register_field name location self :
  consistent self → consistent (Store.register_field name location self).2.
Proof.
  intros Hcons. destruct (decide (location ∈ ["memory"; "disk"])).
  - by rewrite register_field_valid.
  - by rewrite register_field_invalid.
Qed.

Lemma consistent_delete self (cs : list Z) :
  consistent self → consistent (Store.delete self cs).
Proof.
  unfold consistent. rewrite Store_delete_memory, Store_delete_disk.
  intros Hcons disk' Hdisk'.
  destruct (Store._disk_store self) as [disk|]; [|done].
  injection Hdisk' as <-. apply set_eq. intros c.
  rewrite !elem_of_dom, MemoryStore_delete_lookup, DiskStore_delete_lookup.
  case_decide; [done |]. by rewrite <- !elem_of_dom, (Hcons disk).
Qed.

Lemma consistent_clear self : consistent (Store.clear self).
Proof.
  unfold consistent, Store.clear.
  cbn [Store._memory_store Store._disk_store]. intros disk' Hdisk'.
  destruct (Store._disk_store self) as [disk|]; [|done].
  injection Hdisk' as <-.
  by rewrite MemoryStore_clear_ds, DiskStore_clear_files.
Qed.

End register.

(** X6: a store built without a path, or on an empty directory, and used
    through [register_field], [store], [delete] and [clear] only, keeps
    its two tiers on the same clusters: [Store.clusters] never raises
    the inconsistency error, also after calls that raised. *)
Theorem Store_reachable_consistent (self : Store.t) :
  reachable self →
  Store.clusters self = Ok (MemoryStore.clusters (Store._memory_store self)).
Proof.
  intros Hreach. apply consistent_clusters.
  induction Hreach as [path|name location self _ IH|c location data self _ IH
                       |cs self _ IH|self _ IH].
  - intros disk Hdisk. destruct path; [|done]. by injection Hdisk as <-.
  - by apply consistent_register_field.
  - by apply consistent_store.
  - by apply consistent_delete.
  - apply consistent_clear.
Qed.

Lemma Store_reachable_consistent_witness :
  Store.clusters
    (Store.store 6 (Some "nowhere") example_data
       (Store.store 5 None example_data store_with_disk).2).2
  = Ok [5%Z].
Proof.
  refine (Store_reachable_consistent
            (Store.store 6 (Some "nowhere") example_data
               (Store.store 5 None example_data store_with_disk).2).2 _).
  apply reachable_store, reachable_store.
  unfold store_with_disk, example_fields.
  apply reachable_register_field, reachable_register_field, reachable_init.
Defined.

(** X7: [store(cluster, location, **data)] with location ['memory'] or
    ['disk'] registers every field of [data] at that location, replacing
    an earlier registration, and leaves the other fields where they
    were; when the store has the tier, loading a field of [data] for
    the cluster then returns the stored value. *)
Theorem Store_store_with_location (self : Store.t) (c : Z)
    (location : string) (data : dict) :
  location = "memory" ∨ location = "disk" →
  ∃ self',
    Store.store c (Some location) data self = (Ok tt, self')
    ∧ (∀ key, Store._dispatch self' !! key
              = if decide (is_Some (data !! key)) then Some location
                else Store._dispatch self !! key)
    ∧ ((location = "disk" → is_Some (Store._disk_store self)) →
       ∀ key v, data !! key = Some v →
                Store.load self' c (KStr key) = Ok (LVal v)).
Proof.
  intros Hloc.
  assert (location ∈ ["memory"; "disk"]) as Hvalid.
  { destruct Hloc as [->| ->]; [by left | by right; left]. }
  rewrite Store_store_Some by done.
  set (self1 := with_dispatch self (registered_dispatch self location data)).
  assert (∀ key, Store._dispatch self1 !! key
                 = if decide (is_Some (data !! key)) then Some location
                   else Store._dispatch self !! key) as Hdispatch.
  { intros key. unfold self1, registered_dispatch.
    cbn [with_dispatch Store._dispatch]. rewrite lookup_register_loop.
    destruct (decide (key ∈ dict_keys data)) as [Hin|Hin].
    - rewrite decide_True; [done | by apply elem_of_dict_keys].
    - rewrite decide_False; [done |]. by rewrite <- elem_of_dict_keys. }
  eexists. split; [apply Store_store_None |]. split; [exact Hdispatch |].
  intros Hdisk key v Hkey.
  pose proof (Store_load_store_None self1 c data c key) as Hload.
  rewrite decide_True, Hkey in Hload by done.
  rewrite Store_store_None in Hload. apply Hload.
  unfold has_tier. rewrite Hdispatch, decide_True by (by exists v).
  destruct Hloc as [->| ->]; [done |].
  rewrite decide_False by done. rewrite decide_True by done.
  apply bool_decide_eq_true. by apply Hdisk.
Qed.

Lemma Store_store_with_location_witness :
  ∃ self',
    Store.store 5 (Some "disk") {[ "mean" := VInt 3 ]} store_with_disk
    = (Ok tt, self')
    ∧ Store._dispatch self' !! "mean" = Some "disk"
    ∧ Store.load self' 5 (KStr "mean") = Ok (LVal (VInt 3)).
Proof.
  destruct (Store_store_with_location store_with_disk 5 "disk"
              {[ "mean" := VInt 3 ]}) as (self' & Hstore & Hdispatch & Hload);
    [by right |].
  exists self'. split; [exact Hstore |]. split.
  - rewrite Hdispatch. reflexivity.
  - apply Hload; [|reflexivity]. intros _. by eexists.
Defined.

(** X8: a location other than ['memory'] and ['disk'] is refused before
    anything is changed: [register_field] and [store] raise
    [ValueError] and leave the store as it was. *)
Theorem Store_invalid_location (self : Store.t) (c : Z)
    (name location : string) (data : dict) :
  location ≠ "memory" → location ≠ "disk" →
  Store.register_field name location self = (Raise ValueError, self)
  ∧ Store.store c (Some location) data self = (Raise ValueError, self).
Proof.
  intros Hm Hd.
  assert (location ∉ ["memory"; "disk"]) as Hloc.
  { intros [->|[->|Hin]%elem_of_cons]%elem_of_cons; [done | done |].
    by apply elem_of_nil in Hin. }
  split; [by apply register_field_invalid | by apply Store_store_invalid].
Qed.

Lemma Store_invalid_location_witness :
  Store.register_field "mean" "nowhere" store_with_disk
  = (Raise ValueError, store_with_disk)
  ∧ Store.store 5 (Some "nowhere") example_data store_with_disk
    = (Raise ValueError, store_with_disk).
Proof.
  apply (Store_invalid_location store_with_disk 5 "mean" "nowhere"
           example_data); discriminate.
Defined.

(** ** What [Store.load] returns and when it raises *)

Section load_list.
Implicit Types (self : Store.t) (c : Z) (key : string) (ks : list string).

(** What the list form of [Store.load] holds for a key. *)
Lemma lookup_load_list self c ks key :
  (match Store._disk_store self with
   | Some disk => disk_dict disk c (Store._filter self (Some ks) "disk")
   | None => ∅
   end
   ∪ memory_dict (Store._memory_store self) c
       (Store._filter self (Some ks) "memory")) !! key
  = if decide (key ∈ ks ∧ has_tier self key = true)
    then match Store.load self c (KStr key) with
         | Ok (LVal v) => Some v
         | _ => None
         end
    else None.
Proof.
  rewrite lookup_union_dict, lookup_memory_part.
  assert ((match Store._disk_store self with
           | Some disk => disk_dict disk c (Store._filter self (Some ks) "disk")
           | None => ∅
           end : dict) !! key
          = match Store._disk_store self with
            | Some disk =>
                if decide (key ∈ ks ∧ Store._dispatch self !! key = Some "disk")
                then Some (DiskStore._get (DiskStore._cluster_file disk c) key)
                else None
            | None => None
            end) as ->.
  { destruct (Store._disk_store self); [apply lookup_disk_part | apply lookup_empty]. }
  unfold has_tier.
  destruct (Store._dispatch self !! key) as [location|] eqn:Hkey.
  - destruct (decide (location = "memory")) as [->|Hnm].
    + rewrite Store_load_memory by done.
      destruct (decide (key ∈ ks)) as [Hin|Hin].
      * rewrite (decide_True (P := key ∈ ks ∧ Some "memory" = Some "memory"))
          by done.
        rewrite (decide_True (P := key ∈ ks ∧ true = true)) by done.
        destruct (Store._disk_store self); [|done].
        by rewrite decide_False by (intros [_ ?]; congruence).
      * rewrite (decide_False (P := key ∈ ks ∧ Some "memory" = Some "memory"))
          by (by intros [? _]).
        rewrite (decide_False (P := key ∈ ks ∧ true = true))
          by (by intros [? _]).
        destruct (Store._disk_store self); [|done].
        by rewrite decide_False by (by intros [? _]).
    + rewrite (decide_False (P := key ∈ ks ∧ Some location = Some "memory"))
        by (intros [_ ?]; congruence).
      destruct (decide (location = "disk")) as [->|Hnd].
      * destruct (Store._disk_store self) as [disk|] eqn:Hdisk.
        -- rewrite (Store_load_disk self c key disk) by done.
           rewrite bool_decide_eq_true_2 by (by eexists).
           destruct (decide (key ∈ ks)) as [Hin|Hin].
           ++ by rewrite !decide_True by done.
           ++ by rewrite !decide_False by (by intros [? _]).
        -- rewrite bool_decide_eq_false_2 by (by intros [? ?]).
           by rewrite decide_False by (by intros [_ ?]).
      * rewrite (decide_False (P := key ∈ ks ∧ false = true))
          by (by intros [_ ?]).
        destruct (Store._disk_store self); [|done].
        by rewrite decide_False by (intros [_ ?]; congruence).
  - rewrite (decide_False (P := key ∈ ks ∧ None = Some "memory"))
      by (by intros [_ ?]).
    rewrite (decide_False (P := key ∈ ks ∧ false = true)) by (by intros [_ ?]).
    destruct (Store._disk_store self); [|done].
    by rewrite decide_False by (by intros [_ ?]).
Qed.

(** Loading one key routed to a tier of the store returns a value. *)
Lemma Store_load_has_tier self c key :
  has_tier self key = true → ∃ v, Store.load self c (KStr key) = Ok (LVal v).
Proof.
  unfold has_tier. intros Htier.
  destruct (Store._dispatch self !! key) as [location|] eqn:Hkey; [|done].
  destruct (decide (location = "memory")) as [->|].
  { rewrite Store_load_memory by done. by eexists. }
  destruct (decide (location = "disk")) as [->|]; [|done].
  apply bool_decide_eq_true in Htier as [disk Hdisk].
  rewrite (Store_load_disk self c key disk) by done. by eexists.
Qed.

End load_list.

(** X9: [Store.load] with a list of keys never raises; the dictionary it
    returns has exactly the requested keys that are routed to a tier of
    the store, each with the value that loading that key alone
    returns. *)
Theorem Store_load_list_total (self : Store.t) (c : Z) (ks : list string) :
  ∃ out : dict,
    Store.load self c (KList ks) = Ok (LDict out)
    ∧ (∀ key, is_Some (out !! key) ↔ key ∈ ks ∧ has_tier self key = true)
    ∧ (∀ key v, out !! key = Some v →
                Store.load self c (KStr key) = Ok (LVal v)).
Proof.
  eexists.
  change (Store.load self c (KList ks)) with (Store.load_all self c (Some ks)).
  rewrite Store_load_all_eq.
  split; [done |]. split.
  - intros key. rewrite lookup_load_list.
    destruct (decide (key ∈ ks ∧ has_tier self key = true)) as [Hk|Hk].
    + split; [done | intros _]. destruct Hk as [_ Htier].
      destruct (Store_load_has_tier self c key Htier) as [v ->]. by eexists.
    + split; [by intros [? ?] | done].
  - intros key v. rewrite lookup_load_list. case_decide; [|done].
    destruct (Store.load self c (KStr key)) as [[v'|]|]; [|done..].
    by intros [= ->].
Qed.

Lemma Store_load_list_total_witness :
  ∃ out : dict,
    Store.load (Store.store 5 None example_data store_without_disk).2 5
      (KList ["mean"; "waveform"; "other"]) = Ok (LDict out)
    ∧ out !! "mean" = Some (VInt 12)
    ∧ out !! "waveform" = None
    ∧ out !! "other" = None.
Proof.
  destruct (Store_load_list_total
              (Store.store 5 None example_data store_without_disk).2 5
              ["mean"; "waveform"; "other"]) as (out & Hload & Hkeys & _).
  exists out. split; [exact Hload |].
  vm_compute in Hload. injection Hload as <-.
  split; [reflexivity |]. split; reflexivity.
Defined.

(** X10: [Store.load] with one key raises [KeyError] exactly when the key
    is not registered, raises [AttributeError] exactly when the key is
    registered on disk in a store without disk store, and raises
    nothing else: a missing cluster or a missing value is no error. *)
Theorem Store_load_scalar_errors (self : Store.t) (c : Z) (key : string) :
  (Store.load self c (KStr key) = Raise KeyError
   ↔ Store._dispatch self !! key = None)
  ∧ (Store.load self c (KStr key) = Raise AttributeError
     ↔ Store._dispatch self !! key = Some "disk"
       ∧ Store._disk_store self = None)
  ∧ (∀ e, Store.load self c (KStr key) = Raise e →
          e = KeyError ∨ e = AttributeError).
Proof.
  assert (∀ disk, ∃ v, DiskStore.load disk c (KStr key) = Ok (LVal v)) as Hd.
  { intros disk. unfold DiskStore.load. destruct (negb _); by eexists. }
  cbn [Store.load].
  destruct (Store._dispatch self !! key) as [location|] eqn:Hkey.
  - destruct (decide (location = "memory")) as [->|Hnm].
    { cbn [MemoryStore.load]. repeat split; try done; by intros [? ?]. }
    destruct (decide (location = "disk")) as [->|Hnd].
    + destruct (Store._disk_store self) as [disk|] eqn:Hdisk.
      * destruct (Hd disk) as [v ->]. repeat split; try done; by intros [? ?].
      * repeat split; try done. intros e [= <-]. by right.
    + repeat split; try done. intros [[= ->] _]. done.
  - repeat split; try done; [by intros [? ?] |]. intros e [= <-]. by left.
Qed.

(** ** Registering items *)

Section register_item.
Implicit Types (self : ClusterStore.t) (item : StoreItem.t).
Implicit Types (fs : list (string * string)) (name location : string).

Lemma for_each_ext {S A} (l : list A) (f g : A → M S unit) (s : S) :
  (∀ x s, f x s = g x s) → for_each l f s = for_each l g s.
Proof.
  intros Hfg. revert s. induction l as [|x l IH]; intros s; [done |].
  cbn [for_each]. unfold mbind, M_bind. rewrite Hfg.
  destruct (g x s) as [[[]|e] s']; [apply IH | done].
Qed.

Lemma register_item_eq item fs self :
  StoreItem.fields item = Some fs →
  ClusterStore.register_item item self
  = match for_each fs register_one self with
    | (Ok _, self') => (Ok tt, with_item self' item)
    | (Raise e, self') => (Raise e, self')
    end.
Proof.
  intros Hfs. unfold ClusterStore.register_item. rewrite Hfs.
  unfold mbind at 1. unfold M_bind at 1.
  rewrite (for_each_ext fs _ register_one); [|by intros [name location] s].
  by destruct (for_each fs register_one self) as [[[]|e] s'].
Qed.

(** One step of the loop, for a valid location and a free name. *)
Lemma hasattr_with_store self (store : Store.t) name :
  ClusterStore.hasattr (ClusterStore.with_store self store) name
  = ClusterStore.hasattr self name.
Proof. done. Qed.

Lemma register_one_ok name location self :
  location ∈ ["memory"; "disk"] →
  ClusterStore.hasattr self name = false →
  register_one (name, location) self
  = (Ok tt, fields_registered self [(name, location)]).
Proof.
  intros Hloc Hfree. unfold register_one. cbn [fst snd].
  rewrite decide_True by done.
  unfold mbind, M_bind, ClusterStore.on_store.
  rewrite register_field_valid by done.
  unfold get. by rewrite hasattr_with_store, Hfree.
Qed.

(** One step of the loop, for a valid location and a name that is an
    attribute already: the field is registered, then the assertion
    fails. *)
Lemma register_one_taken name location self :
  location ∈ ["memory"; "disk"] →
  ClusterStore.hasattr self name = true →
  register_one (name, location) self
  = (Raise AssertionError,
     ClusterStore.with_store self
       (with_dispatch (ClusterStore._store self)
          (<[name := location]> (Store._dispatch (ClusterStore._store self))))).
Proof.
  intros Hloc Htaken. unfold register_one. cbn [fst snd].
  rewrite decide_True by done.
  unfold mbind, M_bind, ClusterStore.on_store.
  rewrite register_field_valid by done.
  unfold get. by rewrite hasattr_with_store, Htaken.
Qed.

(** After the loop over [fs], the attributes are those of before and the
    names of [fs]. *)
Lemma hasattr_fields_registered self fs name :
  ClusterStore.hasattr (fields_registered self fs) name
  = bool_decide (name ∈ fs.*1) || ClusterStore.hasattr self name.
Proof.
  unfold ClusterStore.hasattr.
  cbn [fields_registered ClusterStore._accessors ClusterStore._object_attrs].
  rewrite <- bool_decide_or. apply bool_decide_ext.
  rewrite !elem_of_app, elem_of_reverse. tauto.
Qed.

Lemma fields_registered_app self fs fs' :
  fields_registered (fields_registered self fs) fs'
  = fields_registered self (fs ++ fs').
Proof.
  unfold fields_registered, fields_dispatch.
  cbn [ClusterStore._model ClusterStore._spikes_per_cluster
       ClusterStore._store ClusterStore._items ClusterStore._accessors
       ClusterStore._object_attrs
       with_dispatch Store._dispatch Store._memory_store Store._disk_store].
  f_equal.
  - by rewrite foldl_app.
  - by rewrite fmap_app, reverse_app, (assoc_L (++)).
Qed.

Lemma fields_registered_nil self : fields_registered self [] = self.
Proof.
  unfold fields_registered, fields_dispatch. cbn [foldl fmap list_fmap].
  rewrite with_dispatch_id. by destruct self.
Qed.

(** The loop of [register_item] over fields with valid locations and
    with distinct names, none of which is an attribute already. *)
Lemma register_loop_ok fs self :
  Forall (λ location, location ∈ ["memory"; "disk"]) fs.*2 →
  NoDup fs.*1 →
  Forall (λ name, ClusterStore.hasattr self name = false) fs.*1 →
  for_each fs register_one self = (Ok tt, fields_registered self fs).
Proof.
  revert self. induction fs as [|[name location] fs IH];
    intros self Hlocs Hnodup Hfree.
  - cbn [for_each]. by rewrite fields_registered_nil.
  - cbn [fmap list_fmap fst snd] in Hlocs, Hnodup, Hfree.
    apply Forall_cons in Hlocs as [Hloc Hlocs].
    apply NoDup_cons in Hnodup as [Hname Hnodup].
    apply Forall_cons in Hfree as [Hfree1 Hfree].
    cbn [for_each]. unfold mbind, M_bind.
    rewrite register_one_ok by done.
    rewrite IH; [| done | done |].
    + by rewrite fields_registered_app.
    + apply Forall_forall. intros n Hn.
      rewrite hasattr_fields_registered.
      rewrite (proj1 (Forall_forall _ _) Hfree n Hn), orb_false_r.
      apply bool_decide_eq_false_2. cbn [fmap list_fmap fst].
      intros ->%list_elem_of_singleton. done.
Qed.

Lemma lookup_fields_dispatch_fresh (d : gmap string string) fs name :
  name ∉ fs.*1 → fields_dispatch d fs !! name = d !! name.
Proof.
  unfold fields_dispatch. revert d.
  induction fs as [|[n l] fs IH]; intros d Hname; [done |].
  cbn [foldl fst snd]. cbn [fmap list_fmap fst] in Hname.
  apply not_elem_of_cons in Hname as [Hne Hname].
  rewrite IH by done. by apply lookup_insert_ne.
Qed.

Lemma lookup_fields_dispatch (d : gmap string string) fs name location :
  NoDup fs.*1 → (name, location) ∈ fs →
  fields_dispatch d fs !! name = Some location.
Proof.
  unfold fields_dispatch. revert d.
  induction fs as [|[n l] fs IH]; intros d Hnodup Hin.
  - by apply elem_of_nil in Hin.
  - cbn [fmap list_fmap fst] in Hnodup.
    apply NoDup_cons in Hnodup as [Hn Hnodup]. cbn [foldl fst snd].
    apply elem_of_cons in Hin as [[= -> ->]|Hin].
    + fold (fields_dispatch (<[n:=l]> d) fs).
      rewrite lookup_fields_dispatch_fresh by done.
      apply lookup_insert_eq.
    + by apply IH.
Qed.

End register_item.

Lemma for_each_app {S A} (l1 l2 : list A) (f : A → M S unit) (s : S) :
  for_each (l1 ++ l2) f s
  = match for_each l1 f s with
    | (Ok _, s') => for_each l2 f s'
    | (Raise e, s') => (Raise e, s')
    end.
Proof.
  revert s. induction l1 as [|x l1 IH]; intros s; [done |].
  cbn [app for_each]. unfold mbind, M_bind.
  destruct (f x s) as [[[]|e] s']; [apply IH | done].
Qed.

(** X11: [register_item] of an item whose fields have valid locations and
    distinct names, for none of which [hasattr(self, name)] holds (be it
    an attribute that the module defines, one that the instance has from
    the interpreter, or one installed earlier), returns; the item is
    appended to the items, each field is routed to its location, the
    routing of the other fields and the content of the tiers are
    unchanged, and the new attribute [self.<name>(cluster)] is
    [self._store.load(cluster, name)]. *)
Theorem ClusterStore_register_item_ok (self : ClusterStore.t)
    (item : StoreItem.t) (fs : list (string * string)) :
  StoreItem.fields item = Some fs →
  Forall (λ location, location ∈ ["memory"; "disk"]) fs.*2 →
  NoDup fs.*1 →
  Forall (λ name, ClusterStore.hasattr self name = false) fs.*1 →
  ∃ self' : ClusterStore.t,
    ClusterStore.register_item item self = (Ok tt, self')
    ∧ ClusterStore._items self' = ClusterStore._items self ++ [item]
    ∧ ClusterStore._spikes_per_cluster self'
      = ClusterStore._spikes_per_cluster self
    ∧ Store._memory_store (ClusterStore._store self')
      = Store._memory_store (ClusterStore._store self)
    ∧ Store._disk_store (ClusterStore._store self')
      = Store._disk_store (ClusterStore._store self)
    ∧ (∀ name location, (name, location) ∈ fs →
         Store._dispatch (ClusterStore._store self') !! name = Some location
         ∧ ∀ c, ClusterStore.accessor self' name c
                = Store.load (ClusterStore._store self') c (KStr name))
    ∧ (∀ name, name ∉ fs.*1 →
         Store._dispatch (ClusterStore._store self') !! name
         = Store._dispatch (ClusterStore._store self) !! name).
Proof.
  intros Hfs Hlocs Hnodup Hfree.
  exists (with_item (fields_registered self fs) item).
  split; [by rewrite (register_item_eq item fs), register_loop_ok |].
  repeat split; try done.
  - by apply lookup_fields_dispatch.
  - intros c. unfold ClusterStore.accessor.
    rewrite bool_decide_eq_true_2; [done |].
    cbn [with_item fields_registered ClusterStore._accessors].
    apply elem_of_app. left. apply elem_of_reverse, list_elem_of_fmap.
    by exists (name, location).
  - intros name Hname. by apply lookup_fields_dispatch_fresh.
Qed.

Lemma ClusterStore_register_item_ok_witness :
  ∃ self' : ClusterStore.t,
    ClusterStore.register_item (item_of example_provider)
      (ClusterStore.init object_attrs None (Some "/store") ∅) = (Ok tt, self')
    ∧ ClusterStore._items self' = [item_of example_provider]
    ∧ Store._dispatch (ClusterStore._store self') !! "g" = Some "disk"
    ∧ ∀ c, ClusterStore.accessor self' "g" c
           = Store.load (ClusterStore._store self') c (KStr "g").
Proof.
  destruct (ClusterStore_register_item_ok
              (ClusterStore.init object_attrs None (Some "/store") ∅)
              (item_of example_provider)
              [("f", "memory"); ("g", "disk")])
    as (self' & Hrun & Hitems & _ & _ & _ & Hfields & _).
  - reflexivity.
  - repeat constructor.
  - apply (bool_decide_unpack _). vm_compute. reflexivity.
  - constructor; [reflexivity |]. constructor; [reflexivity |]. constructor.
  - exists self'. split; [exact Hrun |]. split; [exact Hitems |].
    apply (Hfields "g" "disk"). repeat constructor.
Defined.

(** X12: [register_item] is not atomic.  When the fields before some field
    have valid locations and distinct names for none of which
    [hasattr(self, name)] holds, and for the name of that field
    [hasattr(self, name)] holds already, or it is the name of a field
    before it, [register_item] raises [AssertionError] and does not
    append the item; but the field has been routed to its location by
    then, and the attributes of the fields before it stay installed. *)
Theorem ClusterStore_register_item_collision (self : ClusterStore.t)
    (item : StoreItem.t) (pre post : list (string * string))
    (name location : string) :
  StoreItem.fields item = Some (pre ++ (name, location) :: post) →
  Forall (λ location, location ∈ ["memory"; "disk"]) pre.*2 →
  NoDup pre.*1 →
  Forall (λ name, ClusterStore.hasattr self name = false) pre.*1 →
  location ∈ ["memory"; "disk"] →
  ClusterStore.hasattr self name = true ∨ name ∈ pre.*1 →
  ∃ self' : ClusterStore.t,
    ClusterStore.register_item item self = (Raise AssertionError, self')
    ∧ ClusterStore._items self' = ClusterStore._items self
    ∧ Store._dispatch (ClusterStore._store self') !! name = Some location
    ∧ ∀ n c, n ∈ pre.*1 →
        ClusterStore.accessor self' n c
        = Store.load (ClusterStore._store self') c (KStr n).
Proof.
  intros Hfs Hlocs Hnodup Hfree Hloc Htaken.
  rewrite (register_item_eq item _ self Hfs), for_each_app.
  rewrite register_loop_ok by done.
  cbn [for_each]. unfold mbind, M_bind.
  rewrite register_one_taken; [| done |].
  - eexists. split; [done |]. split; [done |].
    split; [apply lookup_insert_eq |].
    intros n c Hn. unfold ClusterStore.accessor.
    rewrite bool_decide_eq_true_2; [done |].
    cbn [ClusterStore.with_store fields_registered ClusterStore._accessors].
    apply elem_of_app. left. by apply elem_of_reverse.
  - rewrite hasattr_fields_registered. apply orb_true_iff.
    destruct Htaken as [?|?]; [by right |].
    left. by apply bool_decide_eq_true_2.
Qed.

(** Registering the same item a second time fails. *)
Lemma ClusterStore_register_item_collision_witness :
  ∃ self' : ClusterStore.t,
    ClusterStore.register_item (item_of example_provider) example_registered
    = (Raise AssertionError, self')
    ∧ ClusterStore._items self' = ClusterStore._items example_registered
    ∧ Store._dispatch (ClusterStore._store self') !! "f" = Some "memory".
Proof.
  destruct (ClusterStore_register_item_collision example_registered
              (item_of example_provider) [] [("g", "disk")] "f" "memory")
    as (self' & Hrun & Hitems & Hf & _).
  - reflexivity.
  - constructor.
  - constructor.
  - constructor.
  - repeat constructor.
  - left. reflexivity.
  - exists self'. split; [exact Hrun |]. split; [exact Hitems | exact Hf].
Defined.

(** ** Loading after [update] *)

Section frame.
Implicit Types (self : ClusterStore.t) (up : UpdateInfo).
Implicit Types (name : string) (clusters spikes : list Z) (c : Z).

Lemma same_frame_trans (s1 s2 s3 : ClusterStore.t) :
  same_frame s1 s2 → same_frame s2 s3 → same_frame s1 s3.
Proof.
  intros (? & ? & ?) (? & ? & ?). repeat split; congruence.
Qed.

Lemma on_store_frame {A} (m : M Store.t A) self :
  same_frame self (ClusterStore.on_store m self).2.
Proof. unfold ClusterStore.on_store. by destruct (m _). Qed.

Lemma for_each_frame {A} (l : list A) (body : A → M ClusterStore.t unit) self :
  (∀ x s, same_frame s (body x s).2) →
  same_frame self (for_each l body self).2.
Proof.
  intros Hbody. revert self. induction l as [|x l IH]; intros self; [done |].
  cbn [for_each]. unfold mbind, M_bind.
  specialize (Hbody x self).
  destruct (body x self) as [[[]|e] s']; cbn [snd] in *; [|done].
  by eapply same_frame_trans.
Qed.

Lemma merge_frame up self : same_frame self (ClusterStore.merge up self).2.
Proof.
  unfold ClusterStore.merge, mbind, M_bind, get. lazy beta iota.
  apply for_each_frame. intros. apply on_store_frame.
Qed.

Lemma assign_frame up self : same_frame self (ClusterStore.assign up self).2.
Proof.
  unfold ClusterStore.assign, mbind, M_bind, get. lazy beta iota.
  apply for_each_frame. intros. apply on_store_frame.
Qed.

Lemma update_frame up self : same_frame self (ClusterStore.update up self).2.
Proof.
  rewrite ClusterStore_update_eq. cbv zeta.
  repeat case_decide.
  - eapply same_frame_trans; [|apply merge_frame]. done.
  - eapply same_frame_trans; [|apply assign_frame]. done.
  - done.
Qed.

Lemma mapM_res_Raise {A B} (f : A → res B) (l : list A) (x : A) (e : exn) :
  x ∈ l → f x = Raise e → (∀ y e', f y = Raise e' → e' = e) →
  mapM f l = Raise e.
Proof.
  intros Hx Hfx Honly. induction l as [|a l IH].
  - by apply elem_of_nil in Hx.
  - rewrite mapM_res_cons. destruct (f a) as [b|e'] eqn:Ha.
    + apply elem_of_cons in Hx as [->|Hx]; [congruence |].
      by rewrite IH.
    + f_equal. by eapply Honly.
Qed.

Lemma load_spike_clusters_missing self clusters c :
  c ∈ clusters → ClusterStore._spikes_per_cluster self !! c = None →
  ClusterStore.load_spike_clusters self clusters = Raise KeyError.
Proof.
  intros Hc Hnone. unfold ClusterStore.load_spike_clusters.
  rewrite (mapM_res_Raise _ clusters c KeyError); [done | done | |].
  - by rewrite Hnone.
  - intros y e'. destruct (_ !! y); [done |]. by intros [= <-].
Qed.

(** [load] does not return when a requested cluster has no spikes in
    the membership map. *)
Lemma load_missing_membership self name clusters spikes c :
  c ∈ clusters → ClusterStore._spikes_per_cluster self !! c = None →
  ∃ e, ClusterStore.load self name clusters spikes = Raise e.
Proof.
  intros Hc Hnone. unfold ClusterStore.load.
  destruct (Store.clusters (ClusterStore._store self)) as [l|e];
    [|by exists e].
  unfold mbind at 1. unfold res_bind at 1.
  destruct (negb (np_all_in1d clusters l)); [by eexists |].
  destruct (ClusterStore.load_arrays self name clusters) as [arrays|e];
    [|by exists e].
  unfold mbind at 1. unfold res_bind at 1.
  rewrite (load_spike_clusters_missing self clusters c) by done.
  by eexists.
Qed.

End frame.

(** X14: after [update], [load] still reads the spikes of the clusters
    from the membership map that [update] left as it was: a request that
    names a cluster without spikes in that map, such as a cluster added
    by the change, does not return. *)
Theorem ClusterStore_load_after_update (up : UpdateInfo)
    (self : ClusterStore.t) (name : string) (clusters spikes : list Z)
    (c : Z) :
  c ∈ clusters →
  ClusterStore._spikes_per_cluster self !! c = None →
  ∃ e, ClusterStore.load (ClusterStore.update up self).2 name clusters spikes
       = Raise e.
Proof.
  intros Hc Hnone. apply (load_missing_membership _ name clusters spikes c Hc).
  destruct (update_frame up self) as (-> & _). exact Hnone.
Qed.

(** The cluster 3 that [up_assign] adds is in the store after [update],
    and [load] raises when asked for it. *)
Lemma ClusterStore_load_after_update_witness :
  Store.load
    (ClusterStore._store (ClusterStore.update up_assign example_cluster_store).2)
    3 (KStr "f")
  = Ok (LVal (VArray [VArray [VStr "f"; VInt 10];
                      VArray [VStr "f"; VInt 11]]))
  ∧ ∃ e, ClusterStore.load
           (ClusterStore.update up_assign example_cluster_store).2
           "f" [3%Z] [10%Z]
         = Raise e.
Proof.
  split; [reflexivity |].
  apply (ClusterStore_load_after_update up_assign example_cluster_store
           "f" [3%Z] [10%Z] 3).
  - apply list_elem_of_here.
  - reflexivity.
Defined.

(** X15: what [load] refuses.  When [Store.clusters] returns: an empty
    list of clusters makes [np.concatenate] raise [ValueError]; a
    requested cluster that the store does not list fails the assertion;
    and for clusters of the store, a field that is not registered raises
    [KeyError]. *)
Theorem ClusterStore_load_rejects (self : ClusterStore.t) (name : string)
    (spikes l : list Z) :
  Store.clusters (ClusterStore._store self) = Ok l →
  ClusterStore.load self name [] spikes = Raise ValueError
  ∧ (∀ clusters c, c ∈ clusters → c ∉ l →
       ClusterStore.load self name clusters spikes = Raise AssertionError)
  ∧ (∀ clusters, clusters ≠ [] → (∀ c, c ∈ clusters → c ∈ l) →
       Store._dispatch (ClusterStore._store self) !! name = None →
       ClusterStore.load self name clusters spikes = Raise KeyError).
Proof.
  intros Hl. split; [|split].
  - unfold ClusterStore.load. by rewrite Hl.
  - intros clusters c Hc Hnot. unfold ClusterStore.load. rewrite Hl.
    unfold mbind at 1. unfold res_bind at 1.
    by rewrite (np_all_in1d_false clusters l c).
  - intros clusters Hne Hall Hname. unfold ClusterStore.load. rewrite Hl.
    unfold mbind at 1. unfold res_bind at 1.
    rewrite (proj2 (np_all_in1d_true clusters l) Hall). cbn [negb].
    destruct clusters as [|c clusters]; [done |].
    unfold ClusterStore.load_arrays. rewrite mapM_res_cons.
    cbn [Store.load]. by rewrite Hname.
Qed.

Lemma ClusterStore_load_rejects_witness :
  ClusterStore.load example_cluster_store "f" [] [] = Raise ValueError
  ∧ ClusterStore.load example_cluster_store "f" [1%Z; 3%Z] [10%Z]
    = Raise AssertionError
  ∧ ClusterStore.load example_cluster_store "h" [1%Z] [10%Z] = Raise KeyError.
Proof.
  destruct (ClusterStore_load_rejects example_cluster_store "f" []
              [1%Z; 2%Z] eq_refl) as (Hempty & _ & _).
  destruct (ClusterStore_load_rejects example_cluster_store "h" [10%Z]
              [1%Z; 2%Z] eq_refl) as (_ & _ & Hkey).
  split; [exact Hempty |]. split.
  - pose proof (ClusterStore_load_rejects example_cluster_store "f" [10%Z]
                  [1%Z; 2%Z] eq_refl) as (_ & Hassert' & _).
    apply (Hassert' [1%Z; 3%Z] 3%Z).
    + apply list_elem_of_further, list_elem_of_here.
    + intros Hin.
      repeat (apply elem_of_cons in Hin as [Heq|Hin]; [discriminate Heq |]).
      by apply elem_of_nil in Hin.
  - apply Hkey; [done | | reflexivity].
    intros c Hc. apply list_elem_of_singleton in Hc as ->.
    apply list_elem_of_here.
Defined.

(** ** [update] and [generate] with per-spike providers *)

Section per_spike_update.
Implicit Types (self : ClusterStore.t) (store : Store.t) (up : UpdateInfo).
Implicit Types (p : provider) (ps : list provider) (spc : gmap Z (list Z)).
Implicit Types (c : Z) (cls cs : list Z) (name : string).

Lemma same_cluster_refl c store : same_cluster c store store.
Proof.
  split; [done |]. split; [done |].
  by destruct (Store._disk_store store); constructor.
Qed.

Lemma same_cluster_trans c (s1 s2 s3 : Store.t) :
  same_cluster c s1 s2 → same_cluster c s2 s3 → same_cluster c s1 s3.
Proof.
  intros (Hd1 & Hm1 & Hf1) (Hd2 & Hm2 & Hf2).
  split; [congruence |]. split; [congruence |].
  destruct (Store._disk_store s1), (Store._disk_store s2),
    (Store._disk_store s3);
    inversion Hf1; inversion Hf2; subst; constructor; congruence.
Qed.

Lemma same_cluster_load c (s1 s2 : Store.t) (ks : keys) :
  same_cluster c s1 s2 → Store.load s1 c ks = Store.load s2 c ks.
Proof. intros (? & ? & ?). by apply Store_load_ext. Qed.

(** [store] for a cluster leaves the other clusters alone. *)
Lemma same_cluster_store_None store c' (data : dict) c :
  c ≠ c' → same_cluster c (Store.store c' None data store).2 store.
Proof.
  intros Hne. rewrite Store_store_None. cbn [snd].
  split; [done |]. split.
  - cbn [Store._memory_store]. rewrite MemoryStore_store_ds.
    by apply lookup_insert_ne.
  - cbn [Store._disk_store].
    destruct (Store._disk_store store) as [disk|]; constructor.
    rewrite DiskStore_store_files. by apply lookup_insert_ne.
Qed.

Lemma same_cluster_inner_fold spc p cls store c :
  c ∉ cls → same_cluster c (foldl (store_provider spc p) store cls) store.
Proof.
  revert store. induction cls as [|c' cls IH]; intros store Hc;
    [apply same_cluster_refl |].
  apply not_elem_of_cons in Hc as [Hne Hc]. cbn [foldl].
  eapply same_cluster_trans; [by apply IH |].
  rewrite store_provider_eq. by apply same_cluster_store_None.
Qed.

Lemma same_cluster_generate_store spc ps cls store c :
  c ∉ cls → same_cluster c (generate_store spc ps cls store) store.
Proof.
  intros Hc. unfold generate_store. revert store.
  induction ps as [|p ps IH]; intros store; [apply same_cluster_refl |].
  cbn [foldl]. eapply same_cluster_trans; [apply IH |].
  by apply same_cluster_inner_fold.
Qed.

Lemma same_cluster_delete store cs c :
  c ∉ cs → same_cluster c (Store.delete store cs) store.
Proof.
  intros Hc. split; [done |]. split.
  - by rewrite Store_delete_memory, MemoryStore_delete_lookup, decide_False.
  - rewrite Store_delete_disk.
    destruct (Store._disk_store store) as [disk|]; constructor.
    by rewrite DiskStore_delete_lookup, decide_False.
Qed.

Lemma Store_load_deleted store cs c :
  c ∈ cs → Store.load (Store.delete store cs) c KNone = Ok (LDict ∅).
Proof.
  intros Hc. unfold Store.load. rewrite Store_load_all_eq.
  rewrite Store_delete_memory, Store_delete_disk.
  cbn [Store._filter memory_dict]. unfold MemoryStore.record.
  rewrite MemoryStore_delete_lookup, decide_True by done.
  destruct (Store._disk_store store) as [disk|];
    cbn [fmap option_fmap option_map default].
  - unfold disk_dict. rewrite DiskStore_delete_lookup, decide_True by done.
    by rewrite (left_id_L ∅ (∪)).
  - by rewrite (left_id_L ∅ (∪)).
Qed.

Lemma has_tier_delete store cs name :
  has_tier (Store.delete store cs) name = has_tier store name.
Proof.
  unfold has_tier. cbn [Store.delete Store._dispatch Store._disk_store].
  destruct (Store._dispatch store !! name); [|done].
  repeat case_decide; try done.
  by destruct (Store._disk_store store).
Qed.

(** The loop of [StoreItem.assign] for a per-spike provider, when every
    cluster of the loop has its spikes in the dictionary. *)
Lemma base_assign_loop p spc cls store :
  Forall (λ c, is_Some (spc !! c)) cls →
  for_each cls (λ cluster,
    match spc !! cluster with
    | Some spikes => StoreItem.store_from_model (item_of p) cluster spikes
    | None => lift (Raise KeyError)
    end) store
  = (Ok tt, foldl (store_provider spc p) store cls).
Proof.
  intros Hcls. revert store.
  induction Hcls as [|c cls [spikes Hc] _ IH]; intros store; [done |].
  cbn [for_each foldl]. unfold mbind, M_bind. rewrite Hc.
  rewrite store_from_model_item_of, IH.
  rewrite store_provider_eq. unfold spikes_of. by rewrite Hc.
Qed.

(** The same loop when some cluster has no spikes in the dictionary. *)
Lemma base_assign_missing p spc cls store :
  Exists (λ c, spc !! c = None) cls →
  ∃ store',
    for_each cls (λ cluster,
      match spc !! cluster with
      | Some spikes => StoreItem.store_from_model (item_of p) cluster spikes
      | None => lift (Raise KeyError)
      end) store
    = (Raise KeyError, store').
Proof.
  intros Hex. revert store. induction cls as [|c cls IH]; intros store.
  - by apply Exists_nil in Hex.
  - cbn [for_each]. unfold mbind, M_bind.
    destruct (spc !! c) as [spikes|] eqn:Hc.
    + rewrite store_from_model_item_of. apply IH.
      apply Exists_cons in Hex as [?|?]; [congruence | done].
    + by eexists.
Qed.

Lemma assign_item_of p up store :
  Forall (λ c, is_Some (new_spikes_per_cluster up !! c)) (added up) →
  StoreItem.assign (item_of p) up store
  = (Ok tt,
     foldl (store_provider (new_spikes_per_cluster up) p) store (added up)).
Proof. apply base_assign_loop. Qed.

(** The loop of [merge] and of [assign] over per-spike providers. *)
Lemma assign_loops (meth : StoreItem.t → UpdateInfo → M Store.t unit)
    ps up self :
  (∀ p, meth (item_of p) up = StoreItem.assign (item_of p) up) →
  Forall (λ c, is_Some (new_spikes_per_cluster up !! c)) (added up) →
  for_each (item_of <$> ps) (λ item, ClusterStore.on_store (meth item up)) self
  = (Ok tt,
     ClusterStore.with_store self
       (generate_store (new_spikes_per_cluster up) ps (added up)
          (ClusterStore._store self))).
Proof.
  intros Hmeth Hadded. revert self. induction ps as [|p ps IH]; intros self.
  - simpl. by rewrite with_store_id.
  - cbn [fmap list_fmap for_each]. unfold mbind, M_bind.
    unfold ClusterStore.on_store at 1.
    rewrite Hmeth, assign_item_of by done.
    by rewrite IH, with_store_with_store.
Qed.

(** [update] with per-spike providers, for a merge or an assignment in
    which every added cluster has its spikes. *)
Lemma update_per_spike ps up self :
  ClusterStore._items self = item_of <$> ps →
  description up = "merge" ∨ description up = "assign" →
  Forall (λ c, is_Some (new_spikes_per_cluster up !! c)) (added up) →
  ClusterStore.update up self
  = (Ok tt,
     ClusterStore.with_store self
       (generate_store (new_spikes_per_cluster up) ps (added up)
          (Store.delete (ClusterStore._store self) (deleted up)))).
Proof.
  intros Hitems Hdesc Hadded. rewrite ClusterStore_update_eq. cbv zeta.
  destruct (decide (description up = "merge")) as [Hm|Hm].
  - unfold ClusterStore.merge, mbind, M_bind, get. lazy beta iota.
    cbn [ClusterStore.with_store ClusterStore._items]. rewrite Hitems.
    rewrite (assign_loops StoreItem.merge) by done.
    by rewrite with_store_with_store.
  - destruct Hdesc as [?|Hdesc]; [done |]. rewrite decide_True by done.
    unfold ClusterStore.assign, mbind, M_bind, get. lazy beta iota.
    cbn [ClusterStore.with_store ClusterStore._items]. rewrite Hitems.
    rewrite (assign_loops StoreItem.assign) by done.
    by rewrite with_store_with_store.
Qed.

End per_spike_update.

(** X16: [update] for a merge or an assignment, when the items are
    per-spike providers and [up] gives the spikes of every added cluster.
    It returns; the tiers stay in agreement; an added cluster holds, for a
    field that a provider declares, the values of its new spikes; a
    deleted cluster that is not added again loads as the empty
    dictionary; and every load of a cluster that is neither deleted nor
    added returns what it returned before. *)
Theorem ClusterStore_update_per_spike (self : ClusterStore.t)
    (ps : list provider) (up : UpdateInfo) :
  ClusterStore._items self = item_of <$> ps →
  description up = "merge" ∨ description up = "assign" →
  Forall (λ c, is_Some (new_spikes_per_cluster up !! c)) (added up) →
  ∃ self' : ClusterStore.t,
    ClusterStore.update up self = (Ok tt, self')
    ∧ (consistent (ClusterStore._store self) →
       consistent (ClusterStore._store self'))
    ∧ (∀ c name (value_for : Z → value),
         c ∈ added up →
         has_tier (ClusterStore._store self) name = true →
         Exists (λ p, declares p name) ps →
         Forall (λ p, declares p name →
                      ∀ spike, provider_value p name spike = value_for spike)
                ps →
         Store.load (ClusterStore._store self') c (KStr name)
         = Ok (LVal (VArray (value_for
                             <$> spikes_of (new_spikes_per_cluster up) c))))
    ∧ (∀ c, c ∈ deleted up → c ∉ added up →
         Store.load (ClusterStore._store self') c KNone = Ok (LDict ∅))
    ∧ (∀ c ks, c ∉ deleted up → c ∉ added up →
         Store.load (ClusterStore._store self') c ks
         = Store.load (ClusterStore._store self) c ks).
Proof.
  intros Hitems Hdesc Hadded. eexists.
  split; [by apply (update_per_spike ps) |].
  cbn [ClusterStore.with_store ClusterStore._store].
  split; [|split; [|split]].
  - intros Hcons. by apply consistent_generate_store, consistent_delete.
  - intros c name value_for Hc Htier Hex Hagree.
    apply load_generate_store; [| done | done | by left].
    by rewrite has_tier_delete.
  - intros c Hdel Hadd.
    rewrite (same_cluster_load c _ (Store.delete (ClusterStore._store self)
                                      (deleted up))).
    + by apply Store_load_deleted.
    + by apply same_cluster_generate_store.
  - intros c ks Hdel Hadd.
    apply same_cluster_load.
    eapply same_cluster_trans; [by apply same_cluster_generate_store |].
    by apply same_cluster_delete.
Qed.

Lemma ClusterStore_update_per_spike_witness :
  ∃ self' : ClusterStore.t,
    ClusterStore.update up_assign example_cluster_store = (Ok tt, self')
    ∧ Store.load (ClusterStore._store self') 3 (KStr "g")
      = Ok (LVal (VArray [VArray [VStr "g"; VInt 10];
                          VArray [VStr "g"; VInt 11]]))
    ∧ Store.load (ClusterStore._store self') 1 KNone = Ok (LDict ∅)
    ∧ Store.load (ClusterStore._store self') 2 (KStr "f")
      = Ok (LVal (VArray [VArray [VStr "f"; VInt 12]])).
Proof.
  destruct (ClusterStore_update_per_spike example_cluster_store
              [example_provider] up_assign)
    as (self' & Hrun & _ & Hadd & Hdel & Hother).
  - reflexivity.
  - by right.
  - repeat constructor. by eexists.
  - exists self'. split; [exact Hrun |]. split; [|split].
    + apply (Hadd 3%Z "g" (λ spike, VArray [VStr "g"; VInt spike])).
      * apply list_elem_of_here.
      * reflexivity.
      * constructor. apply (bool_decide_unpack _). vm_compute. reflexivity.
      * by repeat constructor.
    + apply Hdel; [apply list_elem_of_here |].
      intros Hin. apply list_elem_of_singleton in Hin. discriminate Hin.
    + rewrite Hother; [reflexivity | |];
        intros Hin; apply list_elem_of_singleton in Hin; discriminate Hin.
Defined.

(** X17: [update] for a merge or an assignment, with at least one
    per-spike provider, raises [KeyError] when [up] gives no spikes for
    one of the added clusters. *)
Theorem ClusterStore_update_missing_spikes (self : ClusterStore.t)
    (p : provider) (ps : list provider) (up : UpdateInfo) :
  ClusterStore._items self = item_of <$> p :: ps →
  description up = "merge" ∨ description up = "assign" →
  Exists (λ c, new_spikes_per_cluster up !! c = None) (added up) →
  ∃ self' : ClusterStore.t,
    ClusterStore.update up self = (Raise KeyError, self').
Proof.
  intros Hitems Hdesc Hex. rewrite ClusterStore_update_eq. cbv zeta.
  destruct (base_assign_missing p (new_spikes_per_cluster up) (added up)
              (Store.delete (ClusterStore._store self) (deleted up)) Hex)
    as [store' Hloop].
  destruct (decide (description up = "merge")) as [Hm|Hm].
  - unfold ClusterStore.merge, mbind, M_bind, get. lazy beta iota.
    cbn [ClusterStore.with_store ClusterStore._items]. rewrite Hitems.
    cbn [fmap list_fmap for_each]. unfold mbind, M_bind.
    unfold ClusterStore.on_store at 1.
    change (StoreItem.merge (item_of p) up)
      with (StoreItem.base_assign (StoreItem.store_from_model (item_of p)) up).
    unfold StoreItem.base_assign.
    cbn [ClusterStore._store ClusterStore.with_store].
    rewrite Hloop. by eexists.
  - destruct Hdesc as [?|Hdesc]; [done |]. rewrite decide_True by done.
    unfold ClusterStore.assign, mbind, M_bind, get. lazy beta iota.
    cbn [ClusterStore.with_store ClusterStore._items]. rewrite Hitems.
    cbn [fmap list_fmap for_each]. unfold mbind, M_bind.
    unfold ClusterStore.on_store at 1.
    change (StoreItem.assign (item_of p) up)
      with (StoreItem.base_assign (StoreItem.store_from_model (item_of p)) up).
    unfold StoreItem.base_assign.
    cbn [ClusterStore._store ClusterStore.with_store].
    rewrite Hloop. by eexists.
Qed.

Lemma ClusterStore_update_missing_spikes_witness :
  ∃ self' : ClusterStore.t,
    ClusterStore.update up_missing example_cluster_store
    = (Raise KeyError, self').
Proof.
  apply (ClusterStore_update_missing_spikes example_cluster_store
           example_provider [] up_missing).
  - reflexivity.
  - by left.
  - apply Exists_cons_tl, Exists_cons_hd. reflexivity.
Defined.

(** X18: [generate] does not delete from the store the clusters that the
    new dictionary lacks.  With per-spike providers, such a cluster is
    still listed by [Store.clusters] after [generate], and every load of
    it returns what it returned before. *)
Theorem ClusterStore_generate_keeps_stale (self : ClusterStore.t)
    (ps : list provider) (spc : gmap Z (list Z)) (c : Z) :
  ClusterStore._items self = item_of <$> ps →
  spc !! c = None →
  (∀ ks, Store.load (ClusterStore._store (ClusterStore.generate spc self).2)
           c ks
         = Store.load (ClusterStore._store self) c ks)
  ∧ (∀ l, Store.clusters (ClusterStore._store self) = Ok l → c ∈ l →
          ∃ l', Store.clusters
                  (ClusterStore._store (ClusterStore.generate spc self).2)
                = Ok l'
                ∧ c ∈ l').
Proof.
  intros Hitems Hc. rewrite (generate_per_spike spc ps) by done.
  cbn [snd ClusterStore._store]. split.
  - intros ks. apply same_cluster_load, same_cluster_generate_store.
    rewrite elem_of_sorted, elem_of_dict_keys, Hc. by intros [? ?].
  - intros l Hl Hin.
    pose proof (consistent_of_clusters _ _ Hl) as Hcons.
    pose proof Hcons as Hmem. apply consistent_clusters in Hmem.
    rewrite Hl in Hmem. injection Hmem as ->.
    eexists. split.
    + by apply consistent_clusters, consistent_generate_store.
    + apply elem_of_MemoryStore_clusters, dom_generate_store_mono.
      by apply elem_of_MemoryStore_clusters.
Qed.

Lemma ClusterStore_generate_keeps_stale_witness :
  Store.load
    (ClusterStore._store
       (ClusterStore.generate {[ 2%Z := [12%Z] ]} example_cluster_store).2)
    1 (KStr "f")
  = Ok (LVal (VArray [VArray [VStr "f"; VInt 10];
                      VArray [VStr "f"; VInt 11]])).
Proof.
  destruct (ClusterStore_generate_keeps_stale example_cluster_store
              [example_provider] {[ 2%Z := [12%Z] ]} 1)
    as [Hload _]; [reflexivity | reflexivity |].
  rewrite Hload. reflexivity.
Defined.
